(** * Multilang: a dictionary-substitution text codec

    Shallow embedding of [multilang.py] (tokenizer, SQLite word store,
    [compress], [decompress], [load]) and the properties of its
    specification.

    Conventions.
    - A Python [str] is the list of its code points ([list Z]); a Python
      [bytes] is a [list byte].
    - Python exceptions are the [Raise] constructor of [result].
    - The Unicode character database behind [\w] and [str.lower], and the
      byte order of the host behind numpy's [uint16], are parameters.
    - The process-wide SQLite connection is threaded explicitly; every
      [execute] is recorded, so that statements can be counted. *)

From Stdlib Require Import ZArith List Bool Lia String Ascii DecimalString Sorted.
From Stdlib Require Import Strings.Byte.
From stdpp Require Import gmap.
Import ListNotations.
Local Open Scope Z_scope.

(* ================================================================== *)
(** * Part I: definitions *)
(* ================================================================== *)

Abbreviation str := (list Z).
Abbreviation bytes := (list byte).

(** ** Exceptions *)

Inductive exn : Set :=
| OverflowError
| ValueError
| UnicodeEncodeError
| UnicodeDecodeError.

Inductive result (A : Type) : Type :=
| Ok (a : A)
| Raise (e : exn).
Arguments Ok {A} a.
Arguments Raise {A} e.

Definition rbind {A B} (r : result A) (k : A -> result B) : result B :=
  match r with
  | Ok a => k a
  | Raise e => Raise e
  end.

(** ** Python builtins on [int], [bytes] and [str] *)

Module Py.

Definition byte_to_Z (b : byte) : Z := Z.of_N (Byte.to_N b).

Definition byte_of_Z (z : Z) : byte :=
  match Byte.of_N (Z.to_N (z mod 256)) with
  | Some b => b
  | None => x00
  end.

Definition len {A} (l : list A) : Z := Z.of_nat (length l).

(** [l[i:j]] for [0 <= i <= j]. *)
Definition slice {A} (i j : Z) (l : list A) : list A :=
  firstn (Z.to_nat (j - i)) (skipn (Z.to_nat i) l).

(** [l[i:]] for [0 <= i]. *)
Definition slice_from {A} (i : Z) (l : list A) : list A :=
  skipn (Z.to_nat i) l.

(** The [n] low base-256 digits of [v], most significant first. *)
Fixpoint be_digits (n : nat) (v : Z) : bytes :=
  match n with
  | O => []
  | S n' => be_digits n' (v / 256) ++ [byte_of_Z (v mod 256)]
  end.

(** [v.to_bytes(n, 'big')]: unsigned, raises [OverflowError] when [v] is
    negative or needs more than [n] bytes. *)
Definition to_bytes (v : Z) (n : nat) : result bytes :=
  if (v <? 0) || (256 ^ Z.of_nat n <=? v) then Raise OverflowError
  else Ok (be_digits n v).

(** [int.from_bytes(bs, 'big')]. *)
Definition from_bytes (bs : bytes) : Z :=
  fold_left (fun acc b => acc * 256 + byte_to_Z b) bs 0.

(** [data.find(bytes([b]), start)] for [0 <= start]. *)
Fixpoint index_from (i : Z) (b : byte) (bs : bytes) : Z :=
  match bs with
  | [] => -1
  | x :: rest => if Byte.eqb x b then i else index_from (i + 1) b rest
  end.

Definition find (data : bytes) (b : byte) (start : Z) : Z :=
  index_from start b (slice_from start data).

(** [sep.join(parts)]. *)
Fixpoint join (sep : str) (parts : list str) : str :=
  match parts with
  | [] => []
  | [p] => p
  | p :: rest => p ++ sep ++ join sep rest
  end.

(** [s.split(chr(sep))]: one field more than there are separators. *)
Fixpoint split (sep : Z) (s : str) : list str :=
  match s with
  | [] => [[]]
  | c :: rest =>
      if c =? sep then [] :: split sep rest
      else match split sep rest with
           | field :: fields => (c :: field) :: fields
           | [] => [[c]]
           end
  end.

(** A literal of the source as a [str]. *)
Definition lit (s : string) : str :=
  map (fun a => Z.of_N (N_of_ascii a)) (list_ascii_of_string s).

(** [str(n)] for a non-negative integer. *)
Definition decimal (n : Z) : str :=
  lit (NilZero.string_of_uint (N.to_uint (Z.to_N n))).

End Py.

(** ** UTF-8, as CPython's codec implements it *)

Module Utf8.
Import Py.

(** A Unicode scalar value: a code point that is not a surrogate. *)
Definition scalar (c : Z) : bool :=
  (0 <=? c) && (c <? 0x110000) && negb ((0xD800 <=? c) && (c <=? 0xDFFF)).

Definition encode_char (c : Z) : option bytes :=
  if negb (scalar c) then None
  else if c <? 0x80 then Some [byte_of_Z c]
  else if c <? 0x800 then
    Some [byte_of_Z (0xC0 + c / 64); byte_of_Z (0x80 + c mod 64)]
  else if c <? 0x10000 then
    Some [byte_of_Z (0xE0 + c / 4096); byte_of_Z (0x80 + (c / 64) mod 64);
          byte_of_Z (0x80 + c mod 64)]
  else
    Some [byte_of_Z (0xF0 + c / 262144); byte_of_Z (0x80 + (c / 4096) mod 64);
          byte_of_Z (0x80 + (c / 64) mod 64); byte_of_Z (0x80 + c mod 64)].

(** [s.encode('utf-8')]: lone surrogates raise [UnicodeEncodeError]. *)
Fixpoint encode (s : str) : result bytes :=
  match s with
  | [] => Ok []
  | c :: rest =>
      match encode_char c with
      | None => Raise UnicodeEncodeError
      | Some bs => rbind (encode rest) (fun tail => Ok (bs ++ tail))
      end
  end.

Definition continuation (c : Z) : bool := (0x80 <=? c) && (c <? 0xC0).

(** One pass of the decoder: [Some c] for each decoded code point, [None]
    for each malformed stretch.  A malformed stretch is the start byte
    alone, or the start byte with the continuation bytes accepted so far;
    a sequence cut short by the end of the data takes all that is left. *)
Fixpoint scan (bs : bytes) : list (option Z) :=
  match bs with
  | [] => []
  | b1 :: r1 =>
    let c1 := byte_to_Z b1 in
    if c1 <? 0x80 then Some c1 :: scan r1
    else if c1 <? 0xC2 then None :: scan r1
    else if c1 <? 0xE0 then
      match r1 with
      | [] => [None]
      | b2 :: r2 =>
        let c2 := byte_to_Z b2 in
        if continuation c2
        then Some ((c1 - 0xC0) * 64 + (c2 - 0x80)) :: scan r2
        else None :: scan r1
      end
    else if c1 <? 0xF0 then
      match r1 with
      | [] => [None]
      | b2 :: r2 =>
        let c2 := byte_to_Z b2 in
        if negb (continuation c2)
           || (if c2 <? 0xA0 then c1 =? 0xE0 else c1 =? 0xED)
        then None :: scan r1
        else
          match r2 with
          | [] => [None]
          | b3 :: r3 =>
            let c3 := byte_to_Z b3 in
            if continuation c3
            then Some ((c1 - 0xE0) * 4096 + (c2 - 0x80) * 64 + (c3 - 0x80))
                   :: scan r3
            else None :: scan r2
          end
      end
    else if c1 <? 0xF5 then
      match r1 with
      | [] => [None]
      | b2 :: r2 =>
        let c2 := byte_to_Z b2 in
        if negb (continuation c2)
           || (if c2 <? 0x90 then c1 =? 0xF0 else c1 =? 0xF4)
        then None :: scan r1
        else
          match r2 with
          | [] => [None]
          | b3 :: r3 =>
            let c3 := byte_to_Z b3 in
            if negb (continuation c3) then None :: scan r2
            else
              match r3 with
              | [] => [None]
              | b4 :: r4 =>
                let c4 := byte_to_Z b4 in
                if continuation c4
                then Some ((c1 - 0xF0) * 262144 + (c2 - 0x80) * 4096
                           + (c3 - 0x80) * 64 + (c4 - 0x80)) :: scan r4
                else None :: scan r3
              end
          end
      end
    else None :: scan r1
  end.

(** [bs.decode('utf-8', errors='ignore')]: malformed stretches vanish. *)
Definition decode_ignore (bs : bytes) : str :=
  flat_map (fun o => match o with Some c => [c] | None => [] end) (scan bs).

(** [bs.decode('utf-8')]: a malformed stretch raises. *)
Definition decode (bs : bytes) : result str :=
  if forallb (fun o : option Z => match o with Some _ => true | None => false end)
             (scan bs)
  then Ok (decode_ignore bs)
  else Raise UnicodeDecodeError.

End Utf8.

(** ** numpy arrays of dtype [uint16] *)

Inductive byteorder : Set := LittleEndian | BigEndian.

Module Np.
Import Py.

(** The values of dtype [uint16]. *)
Definition u16 (x : Z) : Prop := 0 <= x < 65536.

(** [np.array(xs, dtype=np.uint16)] on Python integers: a value outside
    [0, 65535] raises [OverflowError] (NumPy 2; older releases wrapped it
    around with a deprecation warning).  The encoder passes ids below 65536
    and the sentinel, so only a negative id of the store can get here. *)
Definition uint16_array (xs : list Z) : result (list Z) :=
  if forallb (fun x => (0 <=? x) && (x <? 65536)) xs then Ok xs
  else Raise OverflowError.

Definition u16_bytes (native : byteorder) (x : Z) : bytes :=
  match native with
  | LittleEndian => [byte_of_Z (x mod 256); byte_of_Z (x / 256)]
  | BigEndian => [byte_of_Z (x / 256); byte_of_Z (x mod 256)]
  end.

Definition u16_value (native : byteorder) (b0 b1 : byte) : Z :=
  match native with
  | LittleEndian => byte_to_Z b0 + 256 * byte_to_Z b1
  | BigEndian => 256 * byte_to_Z b0 + byte_to_Z b1
  end.

(** [ids.tobytes()]: the elements in the byte order of the host. *)
Definition tobytes (native : byteorder) (ids : list Z) : bytes :=
  flat_map (u16_bytes native) ids.

(** [np.frombuffer(buf, dtype=np.uint16)]: a buffer of odd size raises
    [ValueError]. *)
Fixpoint frombuffer (native : byteorder) (buf : bytes) : result (list Z) :=
  match buf with
  | [] => Ok []
  | [_] => Raise ValueError
  | b0 :: b1 :: rest =>
      rbind (frombuffer native rest)
            (fun ids => Ok (u16_value native b0 b1 :: ids))
  end.

(** Insertion into a strictly increasing list. *)
Fixpoint insert_sorted {A} (cmp : A -> A -> comparison) (x : A) (l : list A)
  : list A :=
  match l with
  | [] => [x]
  | y :: rest =>
      match cmp x y with
      | Lt => x :: l
      | Eq => l
      | Gt => y :: insert_sorted cmp x rest
      end
  end.

(** [np.unique(a)]: the distinct elements of [a], sorted. *)
Definition unique {A} (cmp : A -> A -> comparison) (l : list A) : list A :=
  fold_right (insert_sorted cmp) [] l.

(** Code point order on strings, the order of numpy's [<U] dtype. *)
Fixpoint str_compare (s t : str) : comparison :=
  match s, t with
  | [], [] => Eq
  | [], _ :: _ => Lt
  | _ :: _, [] => Gt
  | a :: s', b :: t' =>
      match a ?= b with
      | Eq => str_compare s' t'
      | c => c
      end
  end.

(** Reading an element of a [<U] array back drops its trailing NULs. *)
Fixpoint rstrip_nul (s : str) : str :=
  match s with
  | [] => []
  | c :: rest =>
      match rstrip_nul rest with
      | [] => if c =? 0 then [] else [c]
      | rest' => c :: rest'
      end
  end.

(** [np.array(strings)]. *)
Definition str_array (l : list str) : list str := map rstrip_nul l.

(** [a[mask]]. *)
Fixpoint select {A} (a : list A) (mask : list bool) : list A :=
  match a, mask with
  | x :: a', m :: mask' => if m then x :: select a' mask' else select a' mask'
  | _, _ => []
  end.

(** [np.any(mask)]. *)
Definition any (mask : list bool) : bool := existsb (fun m => m) mask.

End Np.

(** ** The language registry ([class Language(IntEnum)]) *)

Inductive Language : Set :=
| DE | EN | ES | FR | IT | JA | PT | RU | ZH | AR | FA | KO | NL | PO | TH | VI
| SEP | UNSPECIFIED.

Definition code (l : Language) : Z :=
  match l with
  | DE => 0x001 | EN => 0x002 | ES => 0x003 | FR => 0x004
  | IT => 0x005 | JA => 0x006 | PT => 0x007 | RU => 0x008
  | ZH => 0x009 | AR => 0x00A | FA => 0x00B | KO => 0x00C
  | NL => 0x00D | PO => 0x00E | TH => 0x00F | VI => 0x010
  | SEP => 0x000
  | UNSPECIFIED => 0xFFFF
  end.

Definition members : list Language :=
  [DE; EN; ES; FR; IT; JA; PT; RU; ZH; AR; FA; KO; NL; PO; TH; VI;
   SEP; UNSPECIFIED].

(** [Language(v)]: a value that is no member's raises [ValueError]. *)
Definition Language_of (v : Z) : result Language :=
  match List.find (fun l => code l =? v) members with
  | Some l => Ok l
  | None => Raise ValueError
  end.

(** ** The Unicode character database, a parameter of the embedding

    [isalnum c] is [chr(c).isalnum()], the test behind [\w] of the [re]
    module; [lower s] is [s.lower()]. *)

Record Unicode : Type := {
  isalnum : Z -> bool;
  lower : str -> str
}.

(** What the proofs use of the database: alphanumeric code points are scalar
    values, the ASCII ones are the letters and digits, lowercasing erases
    nothing, and a code point it introduces is a scalar value that is
    either one of [a]..[z] or not ASCII. *)
Definition ascii_alnum (c : Z) : bool :=
  ((0x30 <=? c) && (c <=? 0x39)) || ((0x41 <=? c) && (c <=? 0x5A))
  || ((0x61 <=? c) && (c <=? 0x7A)).

Record UnicodeFacts (U : Unicode) : Prop := {
  isalnum_scalar : forall c, isalnum U c = true -> Utf8.scalar c = true;
  isalnum_ascii : forall c, 0 <= c < 0x80 -> isalnum U c = ascii_alnum c;
  lower_nil : forall s, lower U s = [] -> s = [];
  lower_fresh : forall s c, In c (lower U s) ->
     In c s \/ (Utf8.scalar c = true /\ (0x61 <= c <= 0x7A \/ 0x80 <= c))
}.

(** ** The tokenizer (the [re.findall] comprehension of [compress]) *)

Section Tokenizer.
Variable U : Unicode.

(** The class [[\w']]: alphanumeric, underscore or apostrophe. *)
Definition word_class (c : Z) : bool :=
  isalnum U c || (c =? 0x5F) || (c =? 0x27).

(** The classes [\u4e00-\u9fff], [\u3040-\u309f], [\u30a0-\u30ff]
    and [\uac00-\ud7af]. *)
Definition between (lo hi c : Z) : bool := (lo <=? c) && (c <=? hi).
Definition ideograph : Z -> bool := between 0x4E00 0x9FFF.
Definition hiragana : Z -> bool := between 0x3040 0x309F.
Definition katakana : Z -> bool := between 0x30A0 0x30FF.
Definition hangul : Z -> bool := between 0xAC00 0xD7AF.

(** The longest prefix in a class, and what follows it. *)
Fixpoint span (p : Z -> bool) (s : str) : str * str :=
  match s with
  | [] => ([], [])
  | c :: rest =>
      if p c then let (run, tail) := span p rest in (c :: run, tail)
      else ([], s)
  end.

(** [re.findall(r"[\w']+|[...]|[...]|[...]|[...]", text)]: at each
    position the alternatives are tried in order, the first one greedily;
    when none matches the scan moves one character on.  Each step
    consumes at least one character, so [length text] steps suffice. *)
Fixpoint findall_from (steps : nat) (text : str) : list str :=
  match steps with
  | O => []
  | S steps' =>
      match text with
      | [] => []
      | c :: rest =>
          if word_class c then
            let (run, tail) := span word_class rest in
            (c :: run) :: findall_from steps' tail
          else if ideograph c then [c] :: findall_from steps' rest
          else if hiragana c then [c] :: findall_from steps' rest
          else if katakana c then [c] :: findall_from steps' rest
          else if hangul c then [c] :: findall_from steps' rest
          else findall_from steps' rest
      end
  end.

Definition findall (text : str) : list str :=
  findall_from (length text) text.

(** [np.array([token.lower() for token in re.findall(...)])]. *)
Definition tokenize (text : str) : list str :=
  Np.str_array (map (lower U) (findall text)).

End Tokenizer.

(** What tokens are made of: scalar values other than NUL and [|]. *)
Definition token_char (c : Z) : Prop :=
  Utf8.scalar c = true /\ c <> 0 /\ c <> 0x7C.

Definition token_like (t : str) : Prop := t <> [] /\ Forall token_char t.

(** ** The word store (table [words] behind the global [connection]) *)

Record row : Type := Row { row_id : Z; row_word : str; row_lang : Z }.

Inductive statement : Type :=
| SelectId (word : str) (lang : Z)
    (* SELECT id FROM words WHERE word = ? AND lang = ? *)
| SelectIdWord (id lang : Z)
    (* SELECT id, word FROM words WHERE id = ? AND lang = ? *)
| InsertOrReplace (r : row).
    (* INSERT OR REPLACE INTO words VALUES (?, ?, ?) *)

(** The rows of [words] in rowid order, and the statements executed so
    far, oldest first. *)
Record connection : Type := Connection {
  words : list row;
  executed : list statement
}.

(** [connect()] on a fresh database file. *)
Definition connect : connection := Connection [] [].

Definition Sql (A : Type) : Type := connection -> result A * connection.

Definition ret {A} (a : A) : Sql A := fun c => (Ok a, c).

Definition bind {A B} (m : Sql A) (k : A -> Sql B) : Sql B :=
  fun c =>
    match m c with
    | (Ok a, c') => k a c'
    | (Raise e, c') => (Raise e, c')
    end.

Definition lift {A} (r : result A) : Sql A := fun c => (r, c).

Notation "x <- m ;; k" := (bind m (fun x => k))
  (at level 100, m at next level, right associativity).

Definition record (s : statement) (c : connection) : connection :=
  Connection (words c) (executed c ++ [s]).

Module Sqlite.

(** Rows are scanned in rowid order; [fetchone] takes the first. *)
Definition select_id (t : list row) (word : str) (lang : Z) : option Z :=
  option_map row_id
    (List.find (fun r => bool_decide (row_word r = word) && (row_lang r =? lang)) t).

Definition select_id_word (t : list row) (id lang : Z) : option (Z * str) :=
  option_map (fun r => (row_id r, row_word r))
    (List.find (fun r => (row_id r =? id) && (row_lang r =? lang)) t).

(** PRIMARY KEY (id, lang). *)
Definition key (r : row) : Z * Z := (row_id r, row_lang r).

Definition primary_key (t : list row) : Prop := List.NoDup (map key t).

Definition same_key (r r' : row) : bool :=
  (row_id r =? row_id r') && (row_lang r =? row_lang r').

(** The ids of the data model are unsigned. *)
Definition unsigned_ids (t : list row) : Prop :=
  Forall (fun r => 0 <= row_id r) t.

(** REPLACE deletes the row that holds the key, and the new row takes
    the next rowid. *)
Definition upsert (t : list row) (r : row) : list row :=
  List.filter (fun r' => negb (same_key r r')) t ++ [r].

(** An INTEGER column holds a signed 64-bit value. *)
Definition int64 (v : Z) : bool := (- 2 ^ 63 <=? v) && (v <? 2 ^ 63).

Definition fetch_id (word : str) (lang : Z) : Sql (option Z) :=
  fun c => (Ok (select_id (words c) word lang), record (SelectId word lang) c).

Definition fetch_id_word (id lang : Z) : Sql (option (Z * str)) :=
  fun c => (Ok (select_id_word (words c) id lang), record (SelectIdWord id lang) c).

Definition insert_or_replace (r : row) : Sql unit :=
  fun c =>
    if int64 (row_id r)
    then (Ok tt, Connection (upsert (words c) r) (executed c ++ [InsertOrReplace r]))
    else (Raise OverflowError, c).

(** The rows that reach the table when [rows] are inserted in turn:
    those before the first id that does not fit. *)
Fixpoint accepted (rows : list row) : list row :=
  match rows with
  | [] => []
  | r :: rest => if int64 (row_id r) then r :: accepted rest else []
  end.

Fixpoint executemany (rows : list row) : Sql unit :=
  match rows with
  | [] => ret tt
  | r :: rest => _ <- insert_or_replace r ;; executemany rest
  end.

End Sqlite.

(** ** The codec *)

Section Codec.
Variable U : Unicode.
Variable native : byteorder.

(** [load(source, lang)], from the parsed lines on: [entries] are the
    pairs [(int(parts[0]), parts[1])] of the lines that have two fields, up
    to the first line, if any, whose first field [int] refuses.  Reading
    the file and [commit] are outside the embedding. *)
Definition load (entries : list (Z * str)) (lang : Language) : Sql unit :=
  Sqlite.executemany
    (map (fun e => Row (fst e) (lower U (snd e)) (code lang)) entries).

(** The dictionary comprehension of [compress]: one [SELECT] for each
    element of [np.unique(tokens)]; a row enters the dictionary when its
    id is below 65536. *)
Fixpoint lookup_words (uniq : list str) (lang : Z) (lookup : gmap str Z)
  : Sql (gmap str Z) :=
  match uniq with
  | [] => ret lookup
  | token :: rest =>
      fetched <- Sqlite.fetch_id token lang ;;
      match fetched with
      | Some id =>
          if id <? 65536 then lookup_words rest lang (<[token := id]> lookup)
          else lookup_words rest lang lookup
      | None => lookup_words rest lang lookup
      end
  end.

(** What that comprehension makes of one token. *)
Definition entry (t : list row) (lang : Z) (token : str) : option Z :=
  match Sqlite.select_id t token lang with
  | Some id => if id <? 65536 then Some id else None
  | None => None
  end.

(** The id that [compress] writes for a token. *)
Definition id_of (t : list row) (lang : Z) (token : str) : Z :=
  default (code UNSPECIFIED) (entry t lang token).

Definition compress (text : str) (lang : Language) : Sql bytes :=
  let tokens := tokenize U text in
  if Py.len tokens =? 0 then
    head <- lift (Py.to_bytes (code lang) 1) ;;
    ret (head ++ [x00; x00; x00; x00])
  else
    lookup <- lookup_words (Np.unique Np.str_compare tokens) (code lang) ∅ ;;
    ids <- lift (Np.uint16_array
                   (map (fun token => default (code UNSPECIFIED) (lookup !! token))
                        tokens)) ;;
    let missing := map (fun id => id =? code UNSPECIFIED) ids in
    let packed := Np.tobytes native ids in
    head <- lift (Py.to_bytes (code lang) 1) ;;
    size <- lift (Py.to_bytes (Py.len packed) 4) ;;
    let result := head ++ size ++ packed in
    if Np.any missing then
      literal <- lift (Utf8.encode (Py.join (Py.lit "|") (Np.select tokens missing))) ;;
      ret (result ++ [x00] ++ literal)
    else ret result.

(** The dictionary comprehension of [decompress]: one [SELECT] for each
    element of [np.unique] of the ids that are not the sentinel. *)
Fixpoint lookup_ids (uniq : list Z) (lang : Z) (lookup : gmap Z str)
  : Sql (gmap Z str) :=
  match uniq with
  | [] => ret lookup
  | val :: rest =>
      fetched <- Sqlite.fetch_id_word val lang ;;
      match fetched with
      | Some (id, word) => lookup_ids rest lang (<[id := word]> lookup)
      | None => lookup_ids rest lang lookup
      end
  end.

Definition MISSING : str := Py.lit "[MISSING]".

Definition MISSING_id (identifier : Z) : str :=
  Py.lit "[MISSING:" ++ Py.decimal identifier ++ Py.lit "]".

(** The generator joined at the end of [decompress]; [unspec] is what the
    iterator over the literal tokens still holds. *)
Fixpoint rebuild (ids : list Z) (unspec : list str) (lookup : gmap Z str)
  : list str :=
  match ids with
  | [] => []
  | identifier :: rest =>
      if identifier =? code UNSPECIFIED then
        match unspec with
        | token :: unspec' => token :: rebuild rest unspec' lookup
        | [] => MISSING :: rebuild rest [] lookup
        end
      else
        default (MISSING_id identifier) (lookup !! identifier)
          :: rebuild rest unspec lookup
  end.

(** How many of the first [i] ids are the sentinel: the literal tokens
    that the iterator has given out before position [i]. *)
Definition sentinels_before (i : nat) (ids : list Z) : nat :=
  length (List.filter (fun id => id =? code UNSPECIFIED) (firstn i ids)).

(** The literal tokens that [decompress] reads when the id stream is
    followed by [tail]: they start after a marker that comes first. *)
Definition literals_after (tail : bytes) : list str :=
  match tail with
  | marker :: (_ :: _) as literal =>
      if Byte.eqb marker x00
      then Py.split 0x7C (Utf8.decode_ignore literal)
      else []
  | _ => []
  end.

Definition decompress (data : bytes) : Sql str :=
  if Py.len data <? 5 then ret []
  else
    let length := Py.from_bytes (Py.slice 1 5 data) in
    if length =? 0 then
      if 5 <? Py.len data then
        literal <- lift (Utf8.decode (Py.slice_from 5 data)) ;;
        ret (Py.join (Py.lit " ") (Py.split 0x7C literal))
      else ret []
    else
      let packed := Py.slice 5 (5 + length) data in
      let separator := Py.find data x00 (5 + length) in
      let unspec :=
        if negb (separator =? -1) && (separator + 1 <? Py.len data)
           && negb (Py.len (Py.slice_from (separator + 1) data) =? 0)
        then Py.split 0x7C (Utf8.decode_ignore (Py.slice_from (separator + 1) data))
        else [] in
      lang <- lift (Language_of (Py.byte_to_Z (nth 0 data x00))) ;;
      ids <- lift (Np.frombuffer native packed) ;;
      lookup <- lookup_ids
                  (Np.unique Z.compare
                     (List.filter (fun id => negb (id =? code UNSPECIFIED)) ids))
                  (code lang) ∅ ;;
      ret (Py.join (Py.lit " ") (rebuild ids unspec lookup)).

End Codec.

(** ** Well-formed frames

    The layout that [compress] documents,
    [[lang(1)][length(4)][ids...][separator][missing words]]: a language
    byte, the length of the id stream in four bytes, an id stream of that
    length, which is even, and then either nothing or the marker and the
    UTF-8 bytes of the literal text. *)

Definition literal_section (tail : bytes) : Prop :=
  tail = [] \/ exists text literal, Utf8.encode text = Ok literal /\ tail = x00 :: literal.

Inductive well_formed : bytes -> Prop :=
| wf_frame (head : byte) (size idstream tail : bytes) :
    length size = 4%nat ->
    Py.from_bytes size = Py.len idstream ->
    Z.even (Py.len idstream) = true ->
    literal_section tail ->
    well_formed (head :: size ++ idstream ++ tail).

(** ** A database excerpt for the examples

    The restriction of the Unicode character database to ASCII, the basic
    Cyrillic letters U+0410..U+044F, the CJK unified ideographs of
    Unicode 1.1 (U+4E00..U+9FA5), and the letters U+3041..U+3096,
    U+30A1..U+30FA and U+AC00..U+D7A3 of the Hiragana, Katakana and Hangul
    syllable blocks.  On strings of these code points, and of the other
    code points of the four blocks of the tokenizer that are not letters
    (U+3040, U+3097..U+309C, U+30A0, U+30FB, U+D7A4..U+D7AF), it agrees
    with [str.isalnum] and [str.lower]; elsewhere it knows no letters. *)

Module Excerpt.

Definition alnum (c : Z) : bool :=
  ascii_alnum c
  || between 0x0410 0x044F c
  || between 0x4E00 0x9FA5 c
  || between 0x3041 0x3096 c
  || between 0x30A1 0x30FA c
  || between 0xAC00 0xD7A3 c.

Definition lower_char (c : Z) : Z :=
  if between 0x41 0x5A c then c + 0x20
  else if between 0x0410 0x042F c then c + 0x20
  else c.

Definition unicode : Unicode :=
  {| isalnum := alnum; lower := map lower_char |}.

(** The dictionary of the scenarios: "hello" is 10 and "world" is 11 in
    the EN dictionary. *)
Definition dictionary : connection :=
  Connection [Row 10 (Py.lit "hello") (code EN); Row 11 (Py.lit "world") (code EN)] [].

End Excerpt.

(** ** The rest of [load] and of the script

    [load] reads its file line by line; the script loads one file for each
    language. *)

Module Lines.

(** [chr(c).isspace()]: the separators of [str.split()]. *)
Definition isspace (c : Z) : bool :=
  between 0x09 0x0D c || between 0x1C 0x20 c || (c =? 0x85) || (c =? 0xA0)
  || (c =? 0x1680) || between 0x2000 0x200A c || between 0x2028 0x2029 c
  || (c =? 0x202F) || (c =? 0x205F) || (c =? 0x3000).

(** [line.strip().split()]: the maximal runs without whitespace. *)
Fixpoint fields (line : str) : list str :=
  match line with
  | [] => []
  | c :: rest =>
      if isspace c then fields rest
      else
        match rest with
        | [] => [[c]]
        | c' :: _ =>
            if isspace c' then [c] :: fields rest
            else match fields rest with
                 | field :: others => (c :: field) :: others
                 | [] => [[c]]
                 end
        end
  end.

End Lines.

Section Loader.
Variable U : Unicode.

(** [int(s)] on a field of a line, [None] where it raises [ValueError]; a
    builtin, taken as it is. *)
Variable int_of : str -> option Z.

(** What the generator of [load] makes of one line: a row, nothing for a
    line with fewer than two fields, [ValueError] when [int] refuses the
    first field. *)
Definition line_row (lang : Language) (line : str) : result (option row) :=
  match Lines.fields line with
  | id :: word :: _ =>
      match int_of id with
      | Some i => Ok (Some (Row i (lower U word) (code lang)))
      | None => Raise ValueError
      end
  | _ => Ok None
  end.

(** [load(source, lang)] on the lines of the file: [executemany] draws
    the rows from the generator one at a time. *)
Fixpoint load_lines (lines : list str) (lang : Language) : Sql unit :=
  match lines with
  | [] => ret tt
  | line :: rest =>
      parsed <- lift (line_row lang line) ;;
      match parsed with
      | Some r => _ <- Sqlite.insert_or_replace r ;; load_lines rest lang
      | None => load_lines rest lang
      end
  end.

(** The pair [(int(parts[0]), parts[1])] of a line, if it has one. *)
Definition line_entry (line : str) : option (Z * str) :=
  match Lines.fields line with
  | id :: word :: _ => option_map (fun i => (i, word)) (int_of id)
  | _ => None
  end.

(** The loop of the script over the dictionaries whose files exist:
    [for lang, path in files.items(): load(path, lang)]. *)
Fixpoint load_all (files : list (Language * list (Z * str))) : Sql unit :=
  match files with
  | [] => ret tt
  | file :: rest => _ <- load U (snd file) (fst file) ;; load_all rest
  end.

(** The characters that [re.findall] keeps: those of a class of the
    pattern. *)
Definition kept (c : Z) : bool :=
  word_class U c || ideograph c || hiragana c || katakana c || hangul c.

End Loader.


(** The rows of one language, in rowid order. *)
Definition of_language (lang : Z) (t : list row) : list row :=
  List.filter (fun r => row_lang r =? lang) t.

(** [int] on the strings of ASCII digits, for the examples; the builtin
    accepts more (a sign, underscores, the digits of other scripts). *)
Module Sample.

Fixpoint digits (acc : Z) (s : str) : option Z :=
  match s with
  | [] => Some acc
  | c :: rest =>
      if between 0x30 0x39 c then digits (10 * acc + (c - 0x30)) rest else None
  end.

Definition int_ascii (s : str) : option Z :=
  match s with
  | [] => None
  | _ => digits 0 s
  end.

End Sample.

(* ================================================================== *)
(** * Part II: properties of the embedding *)
(* ================================================================== *)


(** ** The embedding at work *)

Example tokenize_words :
  tokenize Excerpt.unicode (Py.lit "Hello, it's x_y a|b")
  = [Py.lit "hello"; Py.lit "it's"; Py.lit "x_y"; Py.lit "a"; Py.lit "b"].
Proof. reflexivity. Qed.

(** U+30FB, the Katakana middle dot, is no letter: it ends a run and is a
    token by the third one-character alternative. *)
Example tokenize_middle_dot :
  tokenize Excerpt.unicode [0x30AB; 0x30BF; 0x30FB; 0x30AB]
  = [[0x30AB; 0x30BF]; [0x30FB]; [0x30AB]].
Proof. reflexivity. Qed.

Example decode_ignore_malformed :
  Utf8.decode_ignore [xe4; x62; xbd] = Py.lit "b"
  /\ Utf8.decode [xe4; x62; xbd] = Raise UnicodeDecodeError
  /\ Utf8.decode [xe4; xbd; xa0] = Ok [0x4F60].
Proof. repeat split. Qed.

Example to_bytes_too_big :
  Py.to_bytes 65535 1 = Raise OverflowError
  /\ Py.to_bytes 4 4 = Ok [x00; x00; x00; x04].
Proof. split; reflexivity. Qed.

Example decompress_truncated :
  fst (decompress LittleEndian [x02; x00] Excerpt.dictionary) = Ok [].
Proof. reflexivity. Qed.

(** With an empty id stream the rest of the frame is the literal text. *)
Example decompress_bare_literals :
  fst (decompress LittleEndian [x02; x00; x00; x00; x00; x61; x7c; x62]
         Excerpt.dictionary) = Ok (Py.lit "a b").
Proof. reflexivity. Qed.

(** Rows are replaced by key and take a new rowid; the first row in rowid
    order answers a query by word. *)
Example load_replaces :
  let c := snd (load Excerpt.unicode
                  [(1, Py.lit "A"); (2, Py.lit "a"); (1, Py.lit "b")] EN connect) in
  words c = [Row 2 (Py.lit "a") 2; Row 1 (Py.lit "b") 2]
  /\ Sqlite.select_id (words c) (Py.lit "a") 2 = Some 2
  /\ Sqlite.select_id_word (words c) 1 2 = Some (1, Py.lit "b").
Proof. repeat split. Qed.

(** ** Bytes and integers *)

Lemma byte_to_Z_range (b : byte) : 0 <= Py.byte_to_Z b < 256.
Proof.
  unfold Py.byte_to_Z. pose proof (Byte.to_N_bounded b). lia.
Qed.

Lemma byte_to_of_Z (z : Z) : 0 <= z < 256 -> Py.byte_to_Z (Py.byte_of_Z z) = z.
Proof.
  intros Hz. unfold Py.byte_to_Z, Py.byte_of_Z.
  rewrite Z.mod_small by lia.
  destruct (Byte.of_N (Z.to_N z)) as [b|] eqn:E.
  - apply Byte.to_of_N in E. rewrite E. lia.
  - apply Byte.of_N_None_iff in E. lia.
Qed.

Lemma byte_of_to_Z (b : byte) : Py.byte_of_Z (Py.byte_to_Z b) = b.
Proof.
  unfold Py.byte_of_Z. rewrite Z.mod_small by apply byte_to_Z_range.
  unfold Py.byte_to_Z. rewrite N2Z.id, Byte.of_to_N. reflexivity.
Qed.

Lemma length_be_digits (n : nat) (v : Z) : length (Py.be_digits n v) = n.
Proof.
  revert v. induction n as [|n IH]; intros v; simpl; [reflexivity|].
  rewrite length_app, IH. simpl. lia.
Qed.

Lemma from_bytes_snoc (bs : bytes) (b : byte) :
  Py.from_bytes (bs ++ [b]) = Py.from_bytes bs * 256 + Py.byte_to_Z b.
Proof. unfold Py.from_bytes. rewrite fold_left_app. reflexivity. Qed.

Lemma from_bytes_be_digits (n : nat) (v : Z) :
  0 <= v -> Py.from_bytes (Py.be_digits n v) = v mod 256 ^ Z.of_nat n.
Proof.
  revert v. induction n as [|n IH]; intros v Hv.
  - simpl. rewrite Z.mod_1_r. reflexivity.
  - cbn [Py.be_digits]. rewrite from_bytes_snoc, IH
      by (apply Z.div_pos; lia).
    rewrite byte_to_of_Z by (apply Z.mod_pos_bound; lia).
    rewrite Nat2Z.inj_succ, Z.pow_succ_r by lia.
    rewrite (Z.rem_mul_r v 256 (256 ^ Z.of_nat n)) by lia. lia.
Qed.

Lemma to_bytes_ok (v : Z) (n : nat) :
  0 <= v < 256 ^ Z.of_nat n -> Py.to_bytes v n = Ok (Py.be_digits n v).
Proof.
  intros Hv. unfold Py.to_bytes.
  destruct (v <? 0) eqn:E1; [lia|].
  destruct (256 ^ Z.of_nat n <=? v) eqn:E2; [lia|]. reflexivity.
Qed.

Lemma to_bytes_one (v : Z) :
  0 <= v < 256 -> Py.to_bytes v 1 = Ok [Py.byte_of_Z v].
Proof.
  intros Hv. rewrite to_bytes_ok by (simpl; lia). simpl.
  rewrite Z.mod_small by lia. reflexivity.
Qed.

Lemma from_bytes_to_bytes4 (v : Z) :
  0 <= v < 2 ^ 32 -> Py.from_bytes (Py.be_digits 4 v) = v.
Proof.
  intros Hv. rewrite from_bytes_be_digits by lia.
  apply Z.mod_small. simpl. lia.
Qed.

Lemma code_nonneg (lang : Language) : 0 <= code lang.
Proof. destruct lang; simpl; lia. Qed.

Lemma Language_of_code (lang : Language) : Language_of (code lang) = Ok lang.
Proof. destruct lang; reflexivity. Qed.

Lemma Language_of_ok (v : Z) :
  0 <= v <= 16 -> exists lang, Language_of v = Ok lang /\ code lang = v.
Proof.
  intros Hv.
  assert (Hcases : v = 0 \/ v = 1 \/ v = 2 \/ v = 3 \/ v = 4 \/ v = 5 \/ v = 6
     \/ v = 7 \/ v = 8 \/ v = 9 \/ v = 10 \/ v = 11 \/ v = 12 \/ v = 13
     \/ v = 14 \/ v = 15 \/ v = 16) by lia.
  repeat (destruct Hcases as [-> | Hcases]; [eexists; split; reflexivity|]).
  subst v. eexists; split; reflexivity.
Qed.

Lemma Language_of_raises (v : Z) : 16 < v < 65535 -> Language_of v = Raise ValueError.
Proof.
  intros Hv. unfold Language_of, members. cbn [List.find code].
  repeat match goal with
         | |- context [?a =? v] => destruct (Z.eqb_spec a v); [lia|]
         end.
  reflexivity.
Qed.

(** ** Slices of a frame *)

Lemma slice_from_app {A} (l1 l2 : list A) :
  Py.slice_from (Py.len l1) (l1 ++ l2) = l2.
Proof.
  unfold Py.slice_from, Py.len. rewrite Nat2Z.id.
  rewrite skipn_app, skipn_all, Nat.sub_diag. reflexivity.
Qed.

Lemma slice_app {A} (l1 l2 l3 : list A) :
  Py.slice (Py.len l1) (Py.len l1 + Py.len l2) (l1 ++ l2 ++ l3) = l2.
Proof.
  unfold Py.slice. fold (Py.slice_from (Py.len l1) (l1 ++ l2 ++ l3)).
  rewrite slice_from_app. unfold Py.len.
  replace (Z.of_nat (length l1) + Z.of_nat (length l2) - Z.of_nat (length l1))
    with (Z.of_nat (length l2)) by lia.
  rewrite Nat2Z.id, firstn_app, firstn_all, Nat.sub_diag. simpl.
  apply app_nil_r.
Qed.

Lemma index_from_head (i : Z) (b : byte) (bs : bytes) :
  Py.index_from i b (b :: bs) = i.
Proof. simpl. rewrite (Byte.byte_dec_lb (eq_refl b)). reflexivity. Qed.

Lemma find_at_marker (l1 l2 : bytes) (b : byte) :
  Py.find (l1 ++ b :: l2) b (Py.len l1) = Py.len l1.
Proof. unfold Py.find. rewrite slice_from_app. apply index_from_head. Qed.

Lemma find_at_end (l1 : bytes) (b : byte) : Py.find l1 b (Py.len l1) = -1.
Proof.
  pose proof (slice_from_app l1 []) as H. rewrite app_nil_r in H.
  unfold Py.find. rewrite H. reflexivity.
Qed.

(** ** UTF-8: decoding undoes encoding *)

Ltac euclid := Z.div_mod_to_equations; lia.

Ltac settle_tests :=
  repeat match goal with
         | |- context [?a <? ?b] => destruct (Z.ltb_spec a b); try euclid
         | |- context [?a <=? ?b] => destruct (Z.leb_spec a b); try euclid
         | |- context [?a =? ?b] => destruct (Z.eqb_spec a b); try euclid
         end.

Lemma scalar_range (c : Z) :
  Utf8.scalar c = true -> 0 <= c < 0x110000 /\ (c < 0xD800 \/ 0xDFFF < c).
Proof. unfold Utf8.scalar. settle_tests; simpl; intros; try discriminate; lia. Qed.

Lemma scan_encode_char (c : Z) (bs rest : bytes) :
  Utf8.encode_char c = Some bs ->
  Utf8.scan (bs ++ rest) = Some c :: Utf8.scan rest.
Proof.
  unfold Utf8.encode_char.
  destruct (Utf8.scalar c) eqn:Hs; [|discriminate].
  apply scalar_range in Hs. cbn [negb].
  destruct (Z.ltb_spec c 0x80); [|destruct (Z.ltb_spec c 0x800);
    [|destruct (Z.ltb_spec c 0x10000)]];
    intros [= <-]; cbn [app Utf8.scan];
    rewrite ?byte_to_of_Z by euclid; unfold Utf8.continuation;
    settle_tests; cbn [negb orb andb];
    repeat f_equal; euclid.
Qed.

Lemma scan_encode (s : str) (bs : bytes) :
  Utf8.encode s = Ok bs -> Utf8.scan bs = map Some s.
Proof.
  revert bs. induction s as [|c s IH]; intros bs; cbn [Utf8.encode].
  - intros [= <-]. reflexivity.
  - destruct (Utf8.encode_char c) as [cb|] eqn:Ec; [|discriminate].
    destruct (Utf8.encode s) as [tail|] eqn:Es; [|discriminate].
    cbn [rbind]. intros [= <-].
    rewrite (scan_encode_char c cb tail Ec), (IH tail eq_refl). reflexivity.
Qed.

Lemma decode_ignore_encode (s : str) (bs : bytes) :
  Utf8.encode s = Ok bs -> Utf8.decode_ignore bs = s.
Proof.
  intros E. unfold Utf8.decode_ignore. rewrite (scan_encode s bs E). clear.
  induction s as [|c s IH]; [reflexivity|]. simpl. f_equal. exact IH.
Qed.

Lemma decode_encode (s : str) (bs : bytes) :
  Utf8.encode s = Ok bs -> Utf8.decode bs = Ok s.
Proof.
  intros E. unfold Utf8.decode. rewrite (decode_ignore_encode s bs E).
  rewrite (scan_encode s bs E).
  replace (forallb _ (map Some s)) with true; [reflexivity|].
  clear. induction s as [|c s IH]; [reflexivity|]. simpl. exact IH.
Qed.

Lemma encode_scalars (s : str) :
  Forall (fun c => Utf8.scalar c = true) s -> exists bs, Utf8.encode s = Ok bs.
Proof.
  induction 1 as [|c s Hc _ [tail IH]]; [exists []; reflexivity|].
  cbn [Utf8.encode]. unfold Utf8.encode_char. rewrite Hc. cbn [negb].
  rewrite IH. cbn [rbind].
  destruct (c <? 0x80); [|destruct (c <? 0x800); [|destruct (c <? 0x10000)]];
    eexists; reflexivity.
Qed.

Lemma encode_nonempty (s : str) (bs : bytes) :
  Utf8.encode s = Ok bs -> s <> [] -> bs <> [].
Proof.
  destruct s as [|c s]; [congruence|]. intros E _. cbn [Utf8.encode] in E.
  unfold Utf8.encode_char in E.
  destruct (negb (Utf8.scalar c)); [discriminate|].
  destruct (Utf8.encode s); cbn [rbind] in E;
    destruct (c <? 0x80); try destruct (c <? 0x800); try destruct (c <? 0x10000);
    try discriminate; injection E as <-; discriminate.
Qed.

(** ** [split] undoes [join] *)

Lemma split_no_sep (sep : Z) (s : str) : ~ In sep s -> Py.split sep s = [s].
Proof.
  induction s as [|c s IH]; intros Hs; [reflexivity|].
  cbn [Py.split]. destruct (Z.eqb_spec c sep) as [->|_].
  - exfalso. apply Hs. left. reflexivity.
  - rewrite IH; [reflexivity|]. intros Hin. apply Hs. right. exact Hin.
Qed.

Lemma split_app_sep (sep : Z) (p rest : str) :
  ~ In sep p -> Py.split sep (p ++ sep :: rest) = p :: Py.split sep rest.
Proof.
  induction p as [|c p IH]; intros Hp.
  - cbn [app Py.split]. rewrite Z.eqb_refl. reflexivity.
  - cbn [app Py.split]. destruct (Z.eqb_spec c sep) as [->|_].
    + exfalso. apply Hp. left. reflexivity.
    + rewrite IH; [reflexivity|]. intros Hin. apply Hp. right. exact Hin.
Qed.

Lemma split_join (sep : Z) (parts : list str) :
  parts <> [] -> Forall (fun p => ~ In sep p) parts ->
  Py.split sep (Py.join [sep] parts) = parts.
Proof.
  intros Hne Hall. induction Hall as [|p parts Hp Hall IH]; [congruence|].
  destruct parts as [|q parts].
  - cbn [Py.join]. apply split_no_sep, Hp.
  - change (Py.join [sep] (p :: q :: parts))
      with (p ++ sep :: Py.join [sep] (q :: parts)).
    rewrite split_app_sep by exact Hp. f_equal. apply IH. discriminate.
Qed.

Lemma join_nonempty (sep : str) (parts : list str) :
  parts <> [] -> Forall (fun p => p <> []) parts -> Py.join sep parts <> [].
Proof.
  intros Hne Hall. destruct Hall as [|p parts Hp Hall]; [congruence|].
  destruct parts as [|q parts]; cbn [Py.join]; [exact Hp|].
  destruct p; [congruence|discriminate].
Qed.

Lemma join_chars (sep : str) (parts : list str) (c : Z) :
  In c (Py.join sep parts) -> In c sep \/ exists p, In p parts /\ In c p.
Proof.
  induction parts as [|p parts IH]; [intros []|].
  destruct parts as [|q parts].
  - cbn [Py.join]. intros Hc. right. exists p. split; [left; reflexivity|exact Hc].
  - change (Py.join sep (p :: q :: parts))
      with (p ++ sep ++ Py.join sep (q :: parts)).
    rewrite !in_app_iff. intros [Hc|[Hc|Hc]].
    + right. exists p. split; [left; reflexivity|exact Hc].
    + left. exact Hc.
    + destruct (IH Hc) as [Hs|[p' [Hp' Hc']]]; [left; exact Hs|].
      right. exists p'. split; [right; exact Hp'|exact Hc'].
Qed.

(** ** numpy: [frombuffer] undoes [tobytes], [unique] keeps the elements *)

Lemma u16_value_bytes (native : byteorder) (x : Z) (rest : bytes) :
  Np.u16 x ->
  exists b0 b1, Np.u16_bytes native x = [b0; b1] /\ Np.u16_value native b0 b1 = x.
Proof.
  unfold Np.u16. intros Hx.
  destruct native; cbn [Np.u16_bytes]; do 2 eexists; (split; [reflexivity|]);
    cbn [Np.u16_value]; rewrite !byte_to_of_Z by euclid; euclid.
Qed.

Lemma frombuffer_tobytes (native : byteorder) (ids : list Z) :
  Forall Np.u16 ids -> Np.frombuffer native (Np.tobytes native ids) = Ok ids.
Proof.
  induction 1 as [|x ids Hx _ IH]; [reflexivity|].
  destruct (u16_value_bytes native x [] Hx) as (b0 & b1 & Eb & Ev).
  cbn [Np.tobytes flat_map]. rewrite Eb. cbn [app Np.frombuffer].
  fold (Np.tobytes native ids). rewrite IH. cbn [rbind]. rewrite Ev. reflexivity.
Qed.

Lemma len_tobytes (native : byteorder) (ids : list Z) :
  Py.len (Np.tobytes native ids) = 2 * Py.len ids.
Proof.
  unfold Py.len. induction ids as [|x ids IH]; [reflexivity|].
  cbn [Np.tobytes flat_map]. rewrite length_app. fold (Np.tobytes native ids).
  assert (length (Np.u16_bytes native x) = 2%nat) as -> by (destruct native; reflexivity).
  cbn [length]. lia.
Qed.

Lemma uint16_array_ok (xs : list Z) :
  Forall Np.u16 xs -> Np.uint16_array xs = Ok xs.
Proof.
  intros H. unfold Np.uint16_array.
  replace (forallb _ xs) with true; [reflexivity|]. symmetry.
  apply forallb_forall. intros x Hx.
  rewrite List.Forall_forall in H. specialize (H x Hx). unfold Np.u16 in H.
  apply andb_true_intro. split; [apply Z.leb_le|apply Z.ltb_lt]; lia.
Qed.

Lemma in_insert_sorted {A} (cmp : A -> A -> comparison) (x z : A) (l : list A) :
  (forall a b, cmp a b = Eq -> a = b) ->
  In z (Np.insert_sorted cmp x l) <-> z = x \/ In z l.
Proof.
  intros Hcmp. induction l as [|y l IH]; cbn [Np.insert_sorted].
  - simpl. intuition congruence.
  - destruct (cmp x y) eqn:E.
    + apply Hcmp in E. subst y. simpl. intuition congruence.
    + simpl. intuition congruence.
    + cbn [In]. rewrite IH. intuition congruence.
Qed.

Lemma in_unique {A} (cmp : A -> A -> comparison) (z : A) (l : list A) :
  (forall a b, cmp a b = Eq -> a = b) ->
  In z (Np.unique cmp l) <-> In z l.
Proof.
  intros Hcmp. unfold Np.unique. induction l as [|x l IH]; [reflexivity|].
  cbn [fold_right]. rewrite in_insert_sorted by exact Hcmp.
  rewrite IH. simpl. intuition congruence.
Qed.

Lemma str_compare_eq (s t : str) : Np.str_compare s t = Eq -> s = t.
Proof.
  revert t. induction s as [|a s IH]; intros [|b t]; cbn [Np.str_compare];
    try discriminate; [reflexivity|].
  destruct (Z.compare_spec a b) as [->| |]; try discriminate.
  intros E. f_equal. apply IH, E.
Qed.

Lemma str_compare_opp (s t : str) :
  Np.str_compare t s = CompOpp (Np.str_compare s t).
Proof.
  revert t. induction s as [|a s IH]; intros [|b t]; cbn [Np.str_compare];
    try reflexivity.
  rewrite (Z.compare_antisym a b).
  destruct (a ?= b); cbn [CompOpp]; [apply IH|reflexivity|reflexivity].
Qed.

Lemma str_compare_trans (s t u : str) :
  Np.str_compare s t = Lt -> Np.str_compare t u = Lt -> Np.str_compare s u = Lt.
Proof.
  revert t u. induction s as [|a s IH]; intros [|b t] [|c u];
    cbn [Np.str_compare]; try discriminate; try reflexivity.
  destruct (Z.compare_spec a b) as [->|Hab|Hab]; try discriminate.
  - destruct (Z.compare_spec b c) as [->|Hbc|Hbc]; try discriminate.
    + apply IH.
    + reflexivity.
  - intros _. destruct (Z.compare_spec b c) as [->|Hbc|Hbc]; try discriminate.
    + intros _. destruct (Z.compare_spec a c); [lia|reflexivity|lia].
    + intros _. destruct (Z.compare_spec a c); [lia|reflexivity|lia].
Qed.

Section Unique.
Context {A : Type} (cmp : A -> A -> comparison).
Hypothesis cmp_eq : forall a b, cmp a b = Eq -> a = b.
Hypothesis cmp_opp : forall a b, cmp b a = CompOpp (cmp a b).
Hypothesis cmp_trans : forall a b c, cmp a b = Lt -> cmp b c = Lt -> cmp a c = Lt.

Let before (a b : A) : Prop := cmp a b = Lt.

Lemma insert_sorted_sorted (x : A) (l : list A) :
  StronglySorted before l -> StronglySorted before (Np.insert_sorted cmp x l).
Proof.
  induction 1 as [|y l Hl IH Hy]; cbn [Np.insert_sorted].
  - repeat constructor.
  - destruct (cmp x y) eqn:E.
    + constructor; assumption.
    + constructor; [constructor; assumption|].
      constructor; [exact E|].
      eapply List.Forall_impl; [|exact Hy]. intros z Hz.
      exact (cmp_trans x y z E Hz).
    + constructor; [exact IH|].
      apply List.Forall_forall. intros z Hz.
      apply (in_insert_sorted cmp x z l cmp_eq) in Hz as [->|Hz].
      * unfold before. rewrite cmp_opp, E. reflexivity.
      * rewrite List.Forall_forall in Hy. exact (Hy z Hz).
Qed.

(** [np.unique] returns a strictly increasing array: no element twice. *)
Lemma unique_sorted (l : list A) : StronglySorted before (Np.unique cmp l).
Proof.
  unfold Np.unique. induction l as [|x l IH]; [constructor|].
  cbn [fold_right]. apply insert_sorted_sorted, IH.
Qed.

Lemma unique_NoDup (l : list A) : List.NoDup (Np.unique cmp l).
Proof.
  induction (unique_sorted l) as [|y u Hu IH Hy]; constructor; [|exact IH].
  intros Hin. rewrite List.Forall_forall in Hy. specialize (Hy y Hin).
  unfold before in Hy. pose proof (cmp_opp y y) as Ho. rewrite Hy in Ho.
  discriminate.
Qed.

End Unique.

Lemma unique_tokens_NoDup (tokens : list str) :
  List.NoDup (Np.unique Np.str_compare tokens).
Proof.
  apply unique_NoDup;
    [apply str_compare_eq|apply str_compare_opp|apply str_compare_trans].
Qed.

Lemma unique_ids_NoDup (ids : list Z) : List.NoDup (Np.unique Z.compare ids).
Proof.
  apply unique_NoDup.
  - intros a b. apply Z.compare_eq.
  - intros a b. apply Z.compare_antisym.
  - intros a b c. rewrite !Z.compare_lt_iff. lia.
Qed.

Lemma rstrip_nul_id (s : str) : ~ In 0 s -> Np.rstrip_nul s = s.
Proof.
  induction s as [|c s IH]; intros Hs; [reflexivity|].
  cbn [Np.rstrip_nul]. rewrite IH by (intros Hin; apply Hs; right; exact Hin).
  destruct s as [|d s]; [|reflexivity].
  destruct (Z.eqb_spec c 0) as [->|_]; [|reflexivity].
  exfalso. apply Hs. left. reflexivity.
Qed.

(** ** The tokenizer *)

Section TokenizerFacts.
Variable U : Unicode.
Hypothesis HU : UnicodeFacts U.

Lemma word_class_char (c : Z) : word_class U c = true -> token_char c.
Proof.
  unfold word_class. intros H.
  apply orb_true_iff in H as [H|H]; [apply orb_true_iff in H as [H|H]|].
  - pose proof (isalnum_scalar U HU c H) as Hs.
    split; [exact Hs|]. apply scalar_range in Hs.
    split; intros ->; rewrite (isalnum_ascii U HU) in H by lia; discriminate.
  - apply Z.eqb_eq in H. subst c. repeat split; discriminate.
  - apply Z.eqb_eq in H. subst c. repeat split; discriminate.
Qed.

Lemma block_char (lo hi c : Z) :
  0x80 <= lo -> hi < 0xD800 -> between lo hi c = true -> token_char c.
Proof.
  unfold between. intros Hlo Hhi H. apply andb_true_iff in H as [H1 H2].
  apply Z.leb_le in H1, H2. unfold token_char, Utf8.scalar.
  repeat split; lia.
Qed.

Lemma span_class (p : Z -> bool) (s run tail : str) :
  span p s = (run, tail) ->
  Forall (fun c => p c = true) run /\ (length tail <= length s)%nat.
Proof.
  revert run tail. induction s as [|c s IH]; intros run tail; cbn [span].
  - intros [= <- <-]. split; [constructor|reflexivity].
  - destruct (p c) eqn:Hc.
    + destruct (span p s) as [run' tail'] eqn:Es. intros [= <- <-].
      destruct (IH run' tail' eq_refl) as [Hrun Hlen].
      split; [constructor; assumption|simpl; lia].
    + intros [= <- <-]. split; [constructor|reflexivity].
Qed.

Lemma findall_from_tokens (steps : nat) (text t : str) :
  In t (findall_from U steps text) -> token_like t.
Proof.
  revert text. induction steps as [|steps IH]; intros text; [intros []|].
  cbn [findall_from]. destruct text as [|c rest]; [intros []|].
  destruct (word_class U c) eqn:Hw.
  - destruct (span (word_class U) rest) as [run tail] eqn:Es.
    intros [<-|Hin]; [|exact (IH _ Hin)].
    split; [discriminate|]. constructor; [apply word_class_char, Hw|].
    apply span_class in Es as [Hrun _].
    eapply List.Forall_impl; [|exact Hrun]. intros a. apply word_class_char.
  - assert (Hone : forall lo hi, 0x80 <= lo -> hi < 0xD800 ->
              between lo hi c = true -> token_like [c]).
    { intros lo hi Hlo Hhi Hb. split; [discriminate|].
      constructor; [|constructor]. exact (block_char lo hi c Hlo Hhi Hb). }
    destruct (ideograph c) eqn:H1;
      [intros [<-|Hin]; [apply (Hone 0x4E00 0x9FFF ltac:(lia) ltac:(lia) H1)|exact (IH _ Hin)]|].
    destruct (hiragana c) eqn:H2;
      [intros [<-|Hin]; [apply (Hone 0x3040 0x309F ltac:(lia) ltac:(lia) H2)|exact (IH _ Hin)]|].
    destruct (katakana c) eqn:H3;
      [intros [<-|Hin]; [apply (Hone 0x30A0 0x30FF ltac:(lia) ltac:(lia) H3)|exact (IH _ Hin)]|].
    destruct (hangul c) eqn:H4;
      [intros [<-|Hin]; [apply (Hone 0xAC00 0xD7AF ltac:(lia) ltac:(lia) H4)|exact (IH _ Hin)]|].
    apply IH.
Qed.

(** The step budget of [findall] is never exhausted: more steps change
    nothing. *)
Lemma findall_from_enough (steps : nat) (text : str) :
  (length text <= steps)%nat ->
  findall_from U steps text = findall_from U (length text) text.
Proof.
  remember (length text) as n eqn:En. revert steps text En.
  induction n as [n IH] using lt_wf_ind. intros steps text -> Hle.
  destruct text as [|c rest]; [destruct steps; reflexivity|].
  destruct steps as [|steps]; [simpl in Hle; lia|].
  cbn [length findall_from].
  destruct (span (word_class U) rest) as [run tail] eqn:Es.
  apply span_class in Es as [_ Hlen]. simpl in Hle.
  assert (Htail : forall k, (length rest <= k)%nat ->
            findall_from U k tail = findall_from U (length tail) tail).
  { intros k Hk. apply (IH (length tail)); simpl; lia. }
  assert (Hrest : forall k, (length rest <= k)%nat ->
            findall_from U k rest = findall_from U (length rest) rest).
  { intros k Hk. apply (IH (length rest)); simpl; lia. }
  rewrite (Htail steps) by lia. rewrite (Htail (length rest)) by lia.
  rewrite (Hrest steps) by lia. reflexivity.
Qed.

Lemma lower_token (t : str) : token_like t -> token_like (lower U t).
Proof.
  intros [Hne Hall]. split.
  - intros E. apply Hne, (lower_nil U HU), E.
  - apply List.Forall_forall. intros c Hc.
    destruct (lower_fresh U HU t c Hc) as [Hin|[Hs Hr]].
    + rewrite List.Forall_forall in Hall. exact (Hall c Hin).
    + split; [exact Hs|]. split; lia.
Qed.

Lemma token_like_no_nul (t : str) : token_like t -> ~ In 0 t.
Proof.
  intros [_ Hall] Hin. rewrite List.Forall_forall in Hall.
  destruct (Hall 0 Hin) as (_ & H0 & _). congruence.
Qed.

Lemma token_like_no_bar (t : str) : token_like t -> ~ In 0x7C t.
Proof.
  intros [_ Hall] Hin. rewrite List.Forall_forall in Hall.
  destruct (Hall 0x7C Hin) as (_ & _ & H0). congruence.
Qed.

Lemma tokenize_tokens (text t : str) : In t (tokenize U text) -> token_like t.
Proof.
  unfold tokenize, Np.str_array, findall. rewrite map_map, in_map_iff.
  intros (raw & <- & Hraw). apply findall_from_tokens in Hraw.
  apply lower_token in Hraw.
  rewrite rstrip_nul_id by (apply token_like_no_nul, Hraw). exact Hraw.
Qed.

(** On tokens the [<U] array is transparent. *)
Lemma tokenize_lower (text : str) :
  tokenize U text = map (lower U) (findall U text).
Proof.
  unfold tokenize, Np.str_array. rewrite map_map. apply map_ext_in.
  intros raw Hraw. apply rstrip_nul_id, token_like_no_nul, lower_token.
  exact (findall_from_tokens _ _ _ Hraw).
Qed.

End TokenizerFacts.

(** ** The word store *)

Lemma select_id_in (t : list row) (word : str) (lang id : Z) :
  Sqlite.select_id t word lang = Some id -> In (Row id word lang) t.
Proof.
  unfold Sqlite.select_id.
  destruct (List.find _ t) as [r|] eqn:E; [|discriminate].
  intros [= <-]. apply find_some in E as [Hin Hr].
  apply andb_true_iff in Hr as [Hw Hl].
  apply bool_decide_eq_true in Hw. apply Z.eqb_eq in Hl.
  destruct r as [i w l]. simpl in *. subst. exact Hin.
Qed.

Lemma primary_key_unique (t : list row) (r r' : row) :
  Sqlite.primary_key t -> In r t -> In r' t -> Sqlite.key r = Sqlite.key r' ->
  r = r'.
Proof.
  unfold Sqlite.primary_key. induction t as [|a t IH]; [intros _ []|].
  cbn [map]. intros Hnd Hr Hr' Hk. apply List.NoDup_cons_iff in Hnd as [Ha Hnd].
  destruct Hr as [->|Hr], Hr' as [->|Hr'].
  - reflexivity.
  - exfalso. apply Ha. rewrite Hk. apply in_map, Hr'.
  - exfalso. apply Ha. rewrite <- Hk. apply in_map, Hr.
  - exact (IH Hnd Hr Hr' Hk).
Qed.

Lemma select_id_word_in (t : list row) (word : str) (lang id : Z) :
  Sqlite.primary_key t -> In (Row id word lang) t ->
  Sqlite.select_id_word t id lang = Some (id, word).
Proof.
  intros Hpk Hin. unfold Sqlite.select_id_word.
  destruct (List.find _ t) as [r|] eqn:E.
  - apply find_some in E as [Hr Hm]. apply andb_true_iff in Hm as [Hi Hl].
    apply Z.eqb_eq in Hi, Hl.
    assert (r = Row id word lang) as ->.
    { apply (primary_key_unique t); try assumption.
      unfold Sqlite.key. simpl. congruence. }
    reflexivity.
  - pose proof (find_none _ _ E _ Hin) as H. simpl in H.
    rewrite !Z.eqb_refl in H. discriminate.
Qed.

Lemma select_id_word_id (t : list row) (word : str) (lang id id' : Z) :
  Sqlite.select_id_word t id lang = Some (id', word) -> id' = id.
Proof.
  unfold Sqlite.select_id_word.
  destruct (List.find _ t) as [r|] eqn:E; [|discriminate].
  apply find_some in E as [_ Hm]. apply andb_true_iff in Hm as [Hi _].
  apply Z.eqb_eq in Hi. intros [= <- _]. exact Hi.
Qed.

Lemma upsert_primary_key (t : list row) (r : row) :
  Sqlite.primary_key t -> Sqlite.primary_key (Sqlite.upsert t r).
Proof.
  unfold Sqlite.primary_key, Sqlite.upsert. intros Hnd.
  rewrite map_app. cbn [map]. apply List.NoDup_app.
  - induction t as [|a t IH]; [constructor|].
    cbn [map] in Hnd. apply List.NoDup_cons_iff in Hnd as [Ha Hnd].
    cbn [List.filter]. destruct (negb (Sqlite.same_key r a)); [|exact (IH Hnd)].
    cbn [map]. constructor; [|exact (IH Hnd)].
    intros Hin. apply Ha. apply in_map_iff in Hin as (x & Hx & Hin).
    apply filter_In in Hin as [Hin _]. rewrite <- Hx. apply in_map, Hin.
  - constructor; [intros []|constructor].
  - intros k Hk [<-|[]]. apply in_map_iff in Hk as (x & Hx & Hin).
    apply filter_In in Hin as [_ Hne]. apply negb_true_iff in Hne.
    unfold Sqlite.same_key, Sqlite.key in *. injection Hx as H1 H2.
    rewrite H1, H2, !Z.eqb_refl in Hne. discriminate.
Qed.

Lemma executemany_primary_key (rows : list row) (c : connection) :
  Sqlite.primary_key (words c) ->
  Sqlite.primary_key (words (snd (Sqlite.executemany rows c))).
Proof.
  revert c. induction rows as [|r rows IH]; intros c Hpk; [exact Hpk|].
  cbn [Sqlite.executemany]. unfold bind, Sqlite.insert_or_replace.
  destruct (Sqlite.int64 (row_id r)); [|exact Hpk].
  apply IH. simpl. apply upsert_primary_key, Hpk.
Qed.

(** Every table that [load] builds from the empty one has its key. *)
Lemma load_primary_key (U : Unicode) (entries : list (Z * str)) (lang : Language)
    (c : connection) :
  Sqlite.primary_key (words c) ->
  Sqlite.primary_key (words (snd (load U entries lang c))).
Proof. apply executemany_primary_key. Qed.

Lemma connect_primary_key : Sqlite.primary_key (words connect).
Proof. constructor. Qed.

(** ** The two dictionary comprehensions *)

Lemma lookup_words_run (uniq : list str) (lang : Z) (m : gmap str Z)
    (c : connection) :
  exists m',
    lookup_words uniq lang m c
    = (Ok m', Connection (words c)
                (executed c ++ map (fun token => SelectId token lang) uniq))
    /\ forall token,
        m' !! token =
        if decide (token ∈ uniq)
        then match entry (words c) lang token with
             | Some id => Some id
             | None => m !! token
             end
        else m !! token.
Proof.
  revert m c. induction uniq as [|t uniq IH]; intros m c.
  - exists m. split.
    + cbn [lookup_words map]. rewrite app_nil_r. destruct c; reflexivity.
    + intros token. rewrite decide_False by apply not_elem_of_nil. reflexivity.
  - cbn [lookup_words]. unfold bind at 1. cbn [Sqlite.fetch_id].
    set (m1 := match entry (words c) lang t with
               | Some id => <[t := id]> m
               | None => m
               end).
    destruct (IH m1 (record (SelectId t lang) c)) as (m' & Erun & Hm').
    exists m'. split.
    + cbn [map]. cbn [record words executed] in Erun.
      rewrite <- app_assoc in Erun. cbn [app] in Erun. rewrite <- Erun.
      unfold m1, entry.
      destruct (Sqlite.select_id (words c) t lang) as [id|]; [|reflexivity].
      destruct (id <? 65536); reflexivity.
    + intros token. rewrite Hm'. cbn [words record].
      destruct (decide (token = t)) as [->|Hne].
      * rewrite (decide_True (P := t ∈ t :: uniq)) by apply list_elem_of_here.
        unfold m1. destruct (entry (words c) lang t) as [id|] eqn:Et.
        -- rewrite lookup_insert_eq. destruct (decide (t ∈ uniq)); reflexivity.
        -- destruct (decide (t ∈ uniq)); reflexivity.
      * assert (Hm1 : m1 !! token = m !! token).
        { unfold m1. destruct (entry (words c) lang t); [|reflexivity].
          apply lookup_insert_ne. congruence. }
        rewrite Hm1.
        destruct (decide (token ∈ uniq)) as [Hin|Hout].
        -- rewrite decide_True by (apply list_elem_of_further, Hin). reflexivity.
        -- rewrite decide_False; [reflexivity|].
           intros Hin. apply elem_of_cons in Hin as [?|?]; contradiction.
Qed.

Lemma lookup_ids_run (uniq : list Z) (lang : Z) (m : gmap Z str)
    (c : connection) :
  exists m',
    lookup_ids uniq lang m c
    = (Ok m', Connection (words c)
                (executed c ++ map (fun id => SelectIdWord id lang) uniq))
    /\ forall id,
        m' !! id =
        if decide (id ∈ uniq)
        then match Sqlite.select_id_word (words c) id lang with
             | Some (_, word) => Some word
             | None => m !! id
             end
        else m !! id.
Proof.
  revert m c. induction uniq as [|v uniq IH]; intros m c.
  - exists m. split.
    + cbn [lookup_ids map]. rewrite app_nil_r. destruct c; reflexivity.
    + intros id. rewrite decide_False by apply not_elem_of_nil. reflexivity.
  - cbn [lookup_ids]. unfold bind at 1. cbn [Sqlite.fetch_id_word].
    set (m1 := match Sqlite.select_id_word (words c) v lang with
               | Some (_, word) => <[v := word]> m
               | None => m
               end).
    destruct (IH m1 (record (SelectIdWord v lang) c)) as (m' & Erun & Hm').
    exists m'. split.
    + cbn [map]. cbn [record words executed] in Erun.
      rewrite <- app_assoc in Erun. cbn [app] in Erun. rewrite <- Erun.
      unfold m1.
      destruct (Sqlite.select_id_word (words c) v lang) as [[i w]|] eqn:Es;
        [|reflexivity].
      apply select_id_word_id in Es. subst i. reflexivity.
    + intros id. rewrite Hm'. cbn [words record].
      destruct (decide (id = v)) as [->|Hne].
      * rewrite (decide_True (P := v ∈ v :: uniq)) by apply list_elem_of_here.
        unfold m1.
        destruct (Sqlite.select_id_word (words c) v lang) as [[i w]|] eqn:Es.
        -- rewrite lookup_insert_eq. destruct (decide (v ∈ uniq)); reflexivity.
        -- destruct (decide (v ∈ uniq)); reflexivity.
      * assert (Hm1 : m1 !! id = m !! id).
        { unfold m1. destruct (Sqlite.select_id_word (words c) v lang) as [[i w]|];
            [|reflexivity].
          apply lookup_insert_ne. congruence. }
        rewrite Hm1.
        destruct (decide (id ∈ uniq)) as [Hin|Hout].
        -- rewrite decide_True by (apply list_elem_of_further, Hin). reflexivity.
        -- rewrite decide_False; [reflexivity|].
           intros Hin. apply elem_of_cons in Hin as [?|?]; contradiction.
Qed.

(** ** Frames *)

Lemma frombuffer_even (native : byteorder) (buf : bytes) :
  Z.even (Py.len buf) = true ->
  exists ids, Np.frombuffer native buf = Ok ids /\ Forall Np.u16 ids
              /\ Py.len buf = 2 * Py.len ids.
Proof.
  unfold Py.len. remember (length buf) as n eqn:En. revert buf En.
  induction n as [n IH] using lt_wf_ind. intros buf -> Hev.
  destruct buf as [|b0 [|b1 rest]].
  - exists []. repeat split. constructor.
  - discriminate.
  - destruct (IH (length rest)) with (buf := rest) as (ids & E & Hall & Hlen);
      [simpl; lia|reflexivity| |].
    + cbn [length] in Hev. rewrite !Nat2Z.inj_succ in Hev.
      rewrite <- Z.add_1_r, <- Z.add_1_r, <- Z.add_assoc in Hev.
      change (1 + 1) with (2 * 1) in Hev. rewrite Z.even_add_mul_2 in Hev.
      exact Hev.
    + exists (Np.u16_value native b0 b1 :: ids).
      cbn [Np.frombuffer]. rewrite E. cbn [rbind]. repeat split.
      * constructor; [|exact Hall].
        pose proof (byte_to_Z_range b0). pose proof (byte_to_Z_range b1).
        unfold Np.u16. destruct native; cbn [Np.u16_value]; lia.
      * cbn [length]. lia.
Qed.

Lemma rebuild_length (ids : list Z) (unspec : list str) (m : gmap Z str) :
  length (rebuild ids unspec m) = length ids.
Proof.
  revert unspec. induction ids as [|id ids IH]; intros unspec; [reflexivity|].
  cbn [rebuild]. destruct (id =? code UNSPECIFIED).
  - destruct unspec; cbn [length]; rewrite IH; reflexivity.
  - cbn [length]. rewrite IH. reflexivity.
Qed.

Section Frames.
Variable native : byteorder.

(** Decoding a frame whose id stream is not empty, and is followed either
    by nothing or by a marker and literal bytes. *)
Lemma decompress_run (head : byte) (packed tail : bytes) (ids : list Z)
    (lang : Language) (c : connection) :
  0 < Py.len packed < 2 ^ 32 ->
  Np.frombuffer native packed = Ok ids ->
  Language_of (Py.byte_to_Z head) = Ok lang ->
  (tail = [] \/ exists literal, tail = x00 :: literal) ->
  exists m,
    decompress native (head :: Py.be_digits 4 (Py.len packed) ++ packed ++ tail) c
    = (Ok (Py.join (Py.lit " ") (rebuild ids (literals_after tail) m)),
       Connection (words c)
         (executed c
          ++ map (fun id => SelectIdWord id (code lang))
               (Np.unique Z.compare
                  (List.filter (fun id => negb (id =? code UNSPECIFIED)) ids))))
    /\ forall id, In id ids -> id <> code UNSPECIFIED ->
         m !! id = option_map snd (Sqlite.select_id_word (words c) id (code lang)).
Proof.
  intros Hlen Hbuf Hlang Htail.
  set (size := Py.be_digits 4 (Py.len packed)).
  set (data := head :: size ++ packed ++ tail).
  assert (Hsize : Py.len size = 4)
    by (unfold Py.len, size; rewrite length_be_digits; reflexivity).
  assert (Hdata : Py.len data = 5 + Py.len packed + Py.len tail).
  { unfold data, Py.len in *. cbn [length]. rewrite !length_app. lia. }
  assert (Hs1 : Py.slice 1 5 data = size).
  { change data with ([head] ++ size ++ packed ++ tail).
    replace 5 with (Py.len [head] + Py.len size) by (rewrite Hsize; reflexivity).
    change 1 with (Py.len [head]). apply slice_app. }
  assert (Hs2 : Py.slice 5 (5 + Py.len packed) data = packed).
  { change data with ((head :: size) ++ packed ++ tail).
    replace 5 with (Py.len (head :: size))
      by (unfold Py.len in *; cbn [length]; lia).
    apply slice_app. }
  assert (Hunspec :
    (let separator := Py.find data x00 (5 + Py.len packed) in
     if negb (separator =? -1) && (separator + 1 <? Py.len data)
        && negb (Py.len (Py.slice_from (separator + 1) data) =? 0)
     then Py.split 0x7C (Utf8.decode_ignore (Py.slice_from (separator + 1) data))
     else []) = literals_after tail).
  { assert (H5 : 5 + Py.len packed = Py.len (head :: size ++ packed))
      by (unfold Py.len in *; cbn [length]; rewrite length_app; lia).
    destruct Htail as [->|[literal ->]].
    - replace (Py.find data x00 (5 + Py.len packed)) with (-1).
      + reflexivity.
      + unfold data. rewrite H5, app_nil_r.
        symmetry. apply (find_at_end (head :: size ++ packed)).
    - replace (Py.find data x00 (5 + Py.len packed)) with (5 + Py.len packed).
      + cbv zeta.
        assert (Hrest : Py.slice_from (5 + Py.len packed + 1) data = literal).
        { replace (5 + Py.len packed + 1)
            with (Py.len (head :: size ++ packed ++ [x00]))
            by (unfold Py.len in *; cbn [length]; rewrite !length_app;
                cbn [length]; lia).
          unfold data.
          replace (head :: size ++ packed ++ x00 :: literal)
            with ((head :: size ++ packed ++ [x00]) ++ literal)
            by (cbn [app]; rewrite <- !app_assoc; reflexivity).
          apply slice_from_app. }
        rewrite Hrest, Hdata. clear Hrest Hdata Hs1 Hs2 H5. unfold Py.len in *.
        cbn [literals_after]. rewrite (Byte.byte_dec_lb (eq_refl x00)).
        destruct literal as [|b literal]; cbn [length] in *;
          settle_tests; reflexivity.
      + unfold data. rewrite H5. symmetry.
        change (head :: size ++ packed ++ x00 :: literal)
          with ((head :: size ++ packed) ++ x00 :: literal).
        apply find_at_marker. }
  assert (Hge : (Py.len data <? 5) = false).
  { apply Z.ltb_ge. unfold Py.len in *. lia. }
  assert (Hfrom : Py.from_bytes (Py.slice 1 5 data) = Py.len packed).
  { rewrite Hs1. unfold size. apply from_bytes_to_bytes4. lia. }
  unfold decompress. fold data. cbv zeta. rewrite Hge, !Hfrom.
  destruct (Z.eqb_spec (Py.len packed) 0) as [E0|_]; [lia|].
  cbv zeta in Hunspec. rewrite Hs2, Hunspec.
  cbn [nth data]. rewrite Hlang. unfold bind at 1, lift at 1.
  rewrite Hbuf. unfold bind at 1, lift at 1.
  destruct (lookup_ids_run
              (Np.unique Z.compare
                 (List.filter (fun id => negb (id =? code UNSPECIFIED)) ids))
              (code lang) ∅ c) as (m & Erun & Hm).
  exists m. split.
  - unfold bind. rewrite Erun. reflexivity.
  - intros id Hin Hne. rewrite Hm.
    rewrite decide_True.
    + destruct (Sqlite.select_id_word (words c) id (code lang)) as [[i w]|];
        reflexivity.
    + apply list_elem_of_In, in_unique.
      * intros a b E. apply Z.compare_eq, E.
      * apply filter_In. split; [exact Hin|].
        apply negb_true_iff, Z.eqb_neq, Hne.
Qed.

End Frames.

(** ** The encoder *)

Lemma select_in {A} (a : list A) (mask : list bool) (x : A) :
  In x (Np.select a mask) -> In x a.
Proof.
  revert mask. induction a as [|y a IH]; intros [|m mask]; try (intros []).
  cbn [Np.select]. destruct m.
  - intros [<-|Hin]; [left; reflexivity|right; exact (IH _ Hin)].
  - intros Hin. right. exact (IH _ Hin).
Qed.

Lemma select_any {A} (a : list A) (mask : list bool) :
  length a = length mask ->
  if Np.any mask then Np.select a mask <> [] else Np.select a mask = [].
Proof.
  revert mask. induction a as [|y a IH]; intros [|m mask]; try discriminate.
  - reflexivity.
  - intros [= Hlen]. unfold Np.any. cbn [existsb Np.select].
    destruct m; cbn [orb]; [discriminate|]. exact (IH mask Hlen).
Qed.

Lemma entry_some (t : list row) (lang : Z) (token : str) (id : Z) :
  entry t lang token = Some id ->
  Sqlite.select_id t token lang = Some id /\ id < 65536.
Proof.
  unfold entry. destruct (Sqlite.select_id t token lang) as [i|]; [|discriminate].
  destruct (Z.ltb_spec i 65536); [|discriminate]. intros [= <-]. split; [reflexivity|lia].
Qed.

Lemma len_nonempty {A} (l : list A) : l <> [] -> (Py.len l =? 0) = false.
Proof. destruct l; [congruence|]. intros _. reflexivity. Qed.

Section Encoder.
Variable U : Unicode.
Hypothesis HU : UnicodeFacts U.
Variable native : byteorder.

Lemma literals_encode (text : str) (mask : list bool) :
  Np.select (tokenize U text) mask <> [] ->
  exists literal,
    Utf8.encode (Py.join (Py.lit "|") (Np.select (tokenize U text) mask))
    = Ok literal /\ literal <> [].
Proof.
  intros Hne.
  assert (Hall : Forall token_like (Np.select (tokenize U text) mask)).
  { apply List.Forall_forall. intros t Ht.
    apply (tokenize_tokens U HU text), (select_in _ mask), Ht. }
  destruct (encode_scalars (Py.join (Py.lit "|") (Np.select (tokenize U text) mask)))
    as [literal E].
  - apply List.Forall_forall. intros ch Hch.
    apply join_chars in Hch as [Hsep|(p & Hp & Hch)].
    + destruct Hsep as [<-|[]]. reflexivity.
    + rewrite List.Forall_forall in Hall. destruct (Hall p Hp) as [_ Hp'].
      rewrite List.Forall_forall in Hp'. apply (Hp' ch Hch).
  - exists literal. split; [exact E|].
    apply (encode_nonempty _ _ E), join_nonempty; [exact Hne|].
    eapply List.Forall_impl; [|exact Hall]. intros t [Ht _]. exact Ht.
Qed.

(** The frame of a text that has tokens. *)
Lemma compress_run (text : str) (lang : Language) (c : connection) :
  let tokens := tokenize U text in
  let ids := map (id_of (words c) (code lang)) tokens in
  let literals := Np.select tokens (map (fun id => id =? code UNSPECIFIED) ids) in
  tokens <> [] ->
  code lang < 256 ->
  2 * Py.len tokens < 2 ^ 32 ->
  (forall token id,
      In token tokens -> Sqlite.select_id (words c) token (code lang) = Some id ->
      0 <= id) ->
  exists tail,
    compress U native text lang c
    = (Ok (Py.byte_of_Z (code lang)
             :: Py.be_digits 4 (2 * Py.len tokens) ++ Np.tobytes native ids ++ tail),
       Connection (words c)
         (executed c
          ++ map (fun token => SelectId token (code lang))
               (Np.unique Np.str_compare tokens)))
    /\ Forall Np.u16 ids
    /\ ((literals = [] /\ tail = [])
        \/ (literals <> [] /\
            exists literal,
              Utf8.encode (Py.join (Py.lit "|") literals) = Ok literal
              /\ literal <> [] /\ tail = x00 :: literal)).
Proof.
  intros tokens ids literals Hne Hlang Hsize Hpos.
  destruct (lookup_words_run (Np.unique Np.str_compare tokens) (code lang) ∅ c)
    as (m & Erun & Hm).
  assert (Hids : map (fun token => default (code UNSPECIFIED) (m !! token)) tokens
                 = ids).
  { apply map_ext_in. intros token Hin. unfold id_of. rewrite Hm.
    rewrite decide_True
      by (apply list_elem_of_In, in_unique; [apply str_compare_eq|exact Hin]).
    destruct (entry (words c) (code lang) token); reflexivity. }
  assert (Hu16 : Forall Np.u16 ids).
  { apply List.Forall_forall. intros id Hid.
    apply in_map_iff in Hid as (token & <- & Hin). unfold id_of, Np.u16.
    destruct (entry (words c) (code lang) token) as [id|] eqn:E; simpl.
    - apply entry_some in E as [E Hlt]. specialize (Hpos token id Hin E). lia.
    - lia. }
  assert (Hlen : Py.len (Np.tobytes native ids) = 2 * Py.len tokens).
  { rewrite len_tobytes. unfold ids, Py.len. rewrite length_map. reflexivity. }
  pose proof (code_nonneg lang) as Hcode.
  assert (Hpack : Py.len tokens >= 0) by (unfold Py.len; lia).
  assert (Hfront :
      compress U native text lang c
      = (if Np.any (map (fun id => id =? code UNSPECIFIED) ids)
         then literal <- lift (Utf8.encode (Py.join (Py.lit "|") literals)) ;;
              ret ((Py.byte_of_Z (code lang)
                      :: Py.be_digits 4 (2 * Py.len tokens) ++ Np.tobytes native ids)
                     ++ [x00] ++ literal)
         else ret (Py.byte_of_Z (code lang)
                     :: Py.be_digits 4 (2 * Py.len tokens) ++ Np.tobytes native ids))
          (Connection (words c)
             (executed c
              ++ map (fun token => SelectId token (code lang))
                   (Np.unique Np.str_compare tokens)))).
  { unfold compress. fold tokens. rewrite (len_nonempty tokens Hne).
    unfold bind at 1. rewrite Erun. rewrite Hids.
    rewrite (uint16_array_ok ids Hu16). unfold bind at 1, lift at 1.
    rewrite (to_bytes_one (code lang)) by lia. unfold bind at 1, lift at 1.
    rewrite Hlen. rewrite to_bytes_ok by (simpl; lia).
    unfold bind at 1, lift at 1. reflexivity. }
  rewrite Hfront. clear Hfront.
  pose proof (select_any tokens (map (fun id => id =? code UNSPECIFIED) ids)) as Hany.
  fold literals in Hany.
  destruct (Np.any (map (fun id => id =? code UNSPECIFIED) ids)).
  - assert (Hlits : literals <> [])
      by (apply Hany; unfold ids; rewrite !length_map; reflexivity).
    destruct (literals_encode text _ Hlits) as (literal & E & Hnonempty).
    fold tokens ids literals in E.
    exists (x00 :: literal). split; [|split; [exact Hu16|]].
    + unfold bind, lift. rewrite E. unfold ret. cbn [app].
      rewrite <- app_assoc. reflexivity.
    + right. split; [exact Hlits|]. exists literal. repeat split; assumption.
  - exists []. split; [|split; [exact Hu16|]].
    + unfold ret. rewrite app_nil_r. reflexivity.
    + left. split; [|reflexivity].
      apply Hany. unfold ids. rewrite !length_map. reflexivity.
Qed.

End Encoder.

(** The two bounds of the frame format are needed: [UNSPECIFIED] has no
    language byte, and an id stream of 2^32 bytes or more has no length
    field. *)
Lemma compress_unspecified (U : Unicode) (native : byteorder) (text : str)
    (c : connection) :
  fst (compress U native text UNSPECIFIED c) = Raise OverflowError.
Proof.
  unfold compress. destruct (Py.len (tokenize U text) =? 0); [reflexivity|].
  destruct (lookup_words_run (Np.unique Np.str_compare (tokenize U text))
              (code UNSPECIFIED) ∅ c) as (m & Erun & _).
  unfold bind at 1. rewrite Erun. unfold bind at 1, lift at 1, Np.uint16_array.
  destruct (forallb _ _); reflexivity.
Qed.

Lemma compress_overlong (U : Unicode) (native : byteorder) (text : str)
    (lang : Language) (c : connection) :
  2 ^ 32 <= 2 * Py.len (tokenize U text) ->
  fst (compress U native text lang c) = Raise OverflowError.
Proof.
  intros Hlong. unfold compress.
  destruct (Z.eqb_spec (Py.len (tokenize U text)) 0) as [E|_]; [lia|].
  destruct (lookup_words_run (Np.unique Np.str_compare (tokenize U text))
              (code lang) ∅ c) as (m & Erun & _).
  unfold bind at 1. rewrite Erun. unfold bind at 1, lift at 1, Np.uint16_array.
  destruct (forallb _ _); [|reflexivity].
  unfold bind at 1, lift at 1, Py.to_bytes at 1.
  destruct ((code lang <? 0) || (256 ^ Z.of_nat 1 <=? code lang)); [reflexivity|].
  match goal with
  | |- context [Py.to_bytes (Py.len (Np.tobytes native ?xs)) 4] =>
      assert (Hsize : Py.to_bytes (Py.len (Np.tobytes native xs)) 4
                      = Raise OverflowError)
  end.
  { unfold Py.to_bytes. rewrite len_tobytes. unfold Py.len in *.
    rewrite length_map.
    destruct (Z.leb_spec (256 ^ Z.of_nat 4)
                (2 * Z.of_nat (length (tokenize U text)))) as [_|Hlt];
      [|simpl in Hlt; lia].
    rewrite orb_true_r. reflexivity. }
  unfold bind, lift. rewrite Hsize. reflexivity.
Qed.

(** ** Decoding what was encoded *)

Lemma rebuild_tokens (tokens : list str) (f : str -> Z) (m : gmap Z str) :
  (forall token, In token tokens -> f token <> code UNSPECIFIED ->
                 m !! f token = Some token) ->
  rebuild (map f tokens)
    (Np.select tokens (map (fun id => id =? code UNSPECIFIED) (map f tokens))) m
  = tokens.
Proof.
  induction tokens as [|t tokens IH]; intros Hm; [reflexivity|].
  cbn [map Np.select rebuild].
  assert (Htail : forall token, In token tokens -> f token <> code UNSPECIFIED ->
                                m !! f token = Some token)
    by (intros token Hin; apply Hm; right; exact Hin).
  destruct (Z.eqb_spec (f t) (code UNSPECIFIED)) as [E|E].
  - rewrite (IH Htail). reflexivity.
  - rewrite (Hm t (or_introl eq_refl) E), (IH Htail). reflexivity.
Qed.

Section Roundtrip.
Variable U : Unicode.
Hypothesis HU : UnicodeFacts U.
Variable native : byteorder.

Lemma compress_empty (text : str) (lang : Language) (c : connection) :
  tokenize U text = [] -> code lang < 256 ->
  compress U native text lang c
  = (Ok [Py.byte_of_Z (code lang); x00; x00; x00; x00], c).
Proof.
  intros E Hlang. unfold compress. rewrite E. cbn [Py.len length Z.of_nat Z.eqb].
  unfold bind, lift. rewrite to_bytes_one by (pose proof (code_nonneg lang); lia).
  reflexivity.
Qed.

Lemma decompress_empty (head : byte) (c : connection) :
  decompress native [head; x00; x00; x00; x00] c = (Ok [], c).
Proof. reflexivity. Qed.

(** Whatever the dictionary holds, decoding an encoded text gives back
    its tokens. *)
Lemma roundtrip (text : str) (lang : Language) (c : connection) :
  Sqlite.primary_key (words c) ->
  code lang < 256 ->
  2 * Py.len (tokenize U text) < 2 ^ 32 ->
  (forall token id,
      In token (tokenize U text) ->
      Sqlite.select_id (words c) token (code lang) = Some id -> 0 <= id) ->
  exists frame c',
    compress U native text lang c = (Ok frame, c')
    /\ words c' = words c
    /\ fst (decompress native frame c')
       = Ok (Py.join (Py.lit " ") (tokenize U text)).
Proof.
  intros Hpk Hlang Hsize Hpos.
  destruct (tokenize U text) as [|t0 tokens0] eqn:Etok.
  { exists [Py.byte_of_Z (code lang); x00; x00; x00; x00], c.
    rewrite (compress_empty text lang c Etok Hlang). repeat split. }
  assert (Hne : tokenize U text <> []) by (rewrite Etok; discriminate).
  rewrite <- Etok in *. clear Etok t0 tokens0.
  destruct (compress_run U HU native text lang c Hne Hlang Hsize Hpos)
    as (tail & Ecomp & Hu16 & Htail).
  set (tokens := tokenize U text) in *.
  set (ids := map (id_of (words c) (code lang)) tokens) in *.
  set (literals := Np.select tokens (map (fun id => id =? code UNSPECIFIED) ids)) in *.
  set (c' := Connection (words c) _) in Ecomp.
  assert (Hlen : Py.len (Np.tobytes native ids) = 2 * Py.len tokens).
  { rewrite len_tobytes. unfold ids, Py.len. rewrite length_map. reflexivity. }
  assert (Hpos' : 0 < Py.len tokens).
  { unfold Py.len. destruct tokens; [congruence|]. simpl. lia. }
  destruct (decompress_run native (Py.byte_of_Z (code lang))
              (Np.tobytes native ids) tail ids lang c') as (m & Edec & Hm).
  - lia.
  - apply frombuffer_tobytes, Hu16.
  - rewrite byte_to_of_Z by (pose proof (code_nonneg lang); lia).
    apply Language_of_code.
  - destruct Htail as [[_ ->]|[_ (literal & _ & _ & ->)]];
      [left; reflexivity|right; exists literal; reflexivity].
  - rewrite Hlen in Edec. eexists _, c'. split; [exact Ecomp|].
    split; [reflexivity|]. rewrite Edec. cbn [fst]. do 2 f_equal.
    assert (Hlits : literals_after tail = literals).
    { destruct Htail as [[-> ->]|[Hlits (literal & E & Hnonempty & ->)]];
        [reflexivity|].
      cbn [literals_after]. destruct literal as [|b literal]; [congruence|].
      rewrite (Byte.byte_dec_lb (eq_refl x00)).
      rewrite (decode_ignore_encode _ _ E).
      apply (split_join 0x7C literals Hlits).
      apply List.Forall_forall. intros t Ht.
      apply token_like_no_bar, (tokenize_tokens U HU text).
      apply (select_in _ _ _ Ht). }
    rewrite Hlits. apply rebuild_tokens.
    intros token Hin Hid. rewrite Hm.
    + unfold id_of in Hid |- *.
      destruct (entry (words c) (code lang) token) as [id|] eqn:E;
        [|contradiction Hid; reflexivity].
      apply entry_some in E as [E _]. apply select_id_in in E.
      simpl.
      rewrite (select_id_word_in (words c) token (code lang) id Hpk E).
      reflexivity.
    + apply in_map, Hin.
    + exact Hid.
Qed.

End Roundtrip.

(** ** The database excerpt satisfies the facts *)

Lemma excerpt_facts : UnicodeFacts Excerpt.unicode.
Proof.
  split; cbn [isalnum lower Excerpt.unicode].
  - intros c. unfold Excerpt.alnum, ascii_alnum, between, Utf8.scalar. lia.
  - intros c Hc. unfold Excerpt.alnum, ascii_alnum, between. lia.
  - intros s E. apply map_eq_nil in E. exact E.
  - intros s c Hc. apply in_map_iff in Hc as (d & <- & Hd).
    unfold Excerpt.lower_char, between.
    destruct ((0x41 <=? d) && (d <=? 0x5A)) eqn:E1;
      [right; unfold Utf8.scalar; lia|].
    destruct ((0x0410 <=? d) && (d <=? 0x042F)) eqn:E2;
      [right; unfold Utf8.scalar; lia|].
    left. exact Hd.
Qed.

Lemma dictionary_primary_key : Sqlite.primary_key (words Excerpt.dictionary).
Proof.
  unfold Sqlite.primary_key. cbn.
  repeat constructor; cbn; intuition discriminate.
Qed.

(** A run of alphanumeric characters is one match, whatever blocks its
    characters are in: the one-character alternatives never see a letter. *)
Lemma findall_word_run (U : Unicode) (run : str) :
  run <> [] -> Forall (fun c => isalnum U c = true) run ->
  findall U run = [run].
Proof.
  intros Hne Hall. destruct run as [|c run]; [congruence|].
  unfold findall. cbn [length findall_from].
  apply Forall_cons_iff in Hall as [Hc Hall].
  unfold word_class at 1. rewrite Hc. cbn [orb].
  assert (Hspan : span (word_class U) run = (run, [])).
  { clear Hne Hc. induction Hall as [|d run Hd _ IH]; [reflexivity|].
    cbn [span]. unfold word_class at 1. rewrite Hd. cbn [orb]. rewrite IH.
    reflexivity. }
  rewrite Hspan. destruct (length run); reflexivity.
Qed.

(** ** Statements executed *)

Lemma compress_executed (U : Unicode) (native : byteorder) (text : str)
    (lang : Language) (c : connection) :
  snd (compress U native text lang c)
  = Connection (words c)
      (executed c
       ++ map (fun token => SelectId token (code lang))
            (Np.unique Np.str_compare (tokenize U text))).
Proof.
  unfold compress. destruct (tokenize U text) as [|t tokens] eqn:Etok.
  - cbn [Py.len length Z.of_nat Z.eqb Np.unique fold_right map].
    rewrite app_nil_r. unfold bind, lift, ret.
    destruct (Py.to_bytes (code lang) 1); destruct c; reflexivity.
  - rewrite (len_nonempty (t :: tokens)) by discriminate.
    destruct (lookup_words_run (Np.unique Np.str_compare (t :: tokens))
                (code lang) ∅ c) as (m & Erun & _).
    unfold bind at 1. rewrite Erun. unfold bind, lift, ret.
    repeat match goal with
           | |- context [match ?r with Ok _ => _ | Raise _ => _ end] =>
               destruct r
           | |- context [if ?b then _ else _] => destruct b
           end; reflexivity.
Qed.

(** ** Ids that do not fit sixteen bits *)

Lemma select_sentinel (tokens : list str) (f : str -> Z) (i : nat) (token : str) :
  nth_error tokens i = Some token -> f token = code UNSPECIFIED ->
  nth_error (map f tokens) i = Some (code UNSPECIFIED)
  /\ In token (Np.select tokens
                 (map (fun id => id =? code UNSPECIFIED) (map f tokens))).
Proof.
  revert i. induction tokens as [|t tokens IH]; intros [|i]; try discriminate.
  - intros [= ->] E. cbn [map nth_error Np.select]. rewrite E.
    split; [reflexivity|]. rewrite Z.eqb_refl. left. reflexivity.
  - cbn [nth_error map Np.select]. intros Hi E.
    destruct (IH i Hi E) as [Hn Hin]. split; [exact Hn|].
    destruct (f t =? code UNSPECIFIED); [right|]; exact Hin.
Qed.

(** ** Loading a dictionary twice *)

Section Upserts.

(** No row of [rows] has the key of [r]. *)
Let fresh (rows : list row) (r : row) : bool :=
  forallb (fun s => negb (Sqlite.same_key s r)) rows.

Lemma filter_filter_and {A} (p q : A -> bool) (l : list A) :
  List.filter p (List.filter q l) = List.filter (fun x => q x && p x) l.
Proof.
  induction l as [|x l IH]; [reflexivity|]. cbn [List.filter].
  destruct (q x); cbn [andb List.filter]; [destruct (p x)|]; rewrite IH; reflexivity.
Qed.

Lemma filter_none {A} (p : A -> bool) (l : list A) :
  (forall x, In x l -> p x = false) -> List.filter p l = [].
Proof.
  induction l as [|x l IH]; intros H; [reflexivity|]. cbn [List.filter].
  rewrite (H x (or_introl eq_refl)). apply IH. intros y Hy. apply H. right. exact Hy.
Qed.

Lemma upserts_split (rows t : list row) :
  fold_left Sqlite.upsert rows t
  = List.filter (fresh rows) t ++ fold_left Sqlite.upsert rows [].
Proof.
  revert t. induction rows as [|s rows IH]; intros t.
  - cbn [fold_left]. rewrite app_nil_r. symmetry.
    induction t as [|x t IHt]; [reflexivity|]. cbn. f_equal. exact IHt.
  - cbn [fold_left]. rewrite IH. rewrite (IH (Sqlite.upsert [] s)).
    unfold Sqlite.upsert. cbn [List.filter app].
    rewrite List.filter_app, filter_filter_and, <- app_assoc. reflexivity.
Qed.

Lemma upserts_origin (rows t : list row) (r : row) :
  In r (fold_left Sqlite.upsert rows t) -> In r t \/ In r rows.
Proof.
  revert t. induction rows as [|s rows IH]; intros t; cbn [fold_left].
  - intros H. left. exact H.
  - intros H. destruct (IH _ H) as [Hin|Hin]; [|right; right; exact Hin].
    unfold Sqlite.upsert in Hin. apply in_app_iff in Hin as [Hin|[<-|[]]].
    + left. apply filter_In in Hin as [Hin _]. exact Hin.
    + right. left. reflexivity.
Qed.

Lemma upserts_idempotent (rows t : list row) :
  fold_left Sqlite.upsert rows (fold_left Sqlite.upsert rows t)
  = fold_left Sqlite.upsert rows t.
Proof.
  rewrite (upserts_split rows (fold_left _ rows t)).
  rewrite (upserts_split rows t) at 1.
  rewrite List.filter_app, filter_filter_and.
  rewrite (filter_none (fresh rows) (fold_left Sqlite.upsert rows [])).
  - rewrite app_nil_r, (upserts_split rows t). f_equal.
    apply filter_ext. intros x. destruct (fresh rows x); reflexivity.
  - intros r Hr. apply upserts_origin in Hr as [[]|Hr].
    unfold fresh. apply not_true_is_false. intros Hall.
    rewrite forallb_forall in Hall. specialize (Hall r Hr).
    unfold Sqlite.same_key in Hall. rewrite !Z.eqb_refl in Hall. discriminate.
Qed.

End Upserts.

Lemma executemany_words (rows : list row) (c : connection) :
  words (snd (Sqlite.executemany rows c))
  = fold_left Sqlite.upsert (Sqlite.accepted rows) (words c).
Proof.
  revert c. induction rows as [|r rows IH]; intros c; [reflexivity|].
  cbn [Sqlite.executemany Sqlite.accepted]. unfold bind, Sqlite.insert_or_replace.
  destruct (Sqlite.int64 (row_id r)); [|reflexivity].
  rewrite IH. reflexivity.
Qed.

Lemma executemany_result (rows : list row) (c : connection) :
  fst (Sqlite.executemany rows c)
  = if forallb (fun r => Sqlite.int64 (row_id r)) rows then Ok tt
    else Raise OverflowError.
Proof.
  revert c. induction rows as [|r rows IH]; intros c; [reflexivity|].
  cbn [Sqlite.executemany forallb]. unfold bind, Sqlite.insert_or_replace.
  destruct (Sqlite.int64 (row_id r)); [|reflexivity].
  rewrite IH. reflexivity.
Qed.

(** ** Frames that were not encoded here *)

Lemma from_bytes_range (bs : bytes) :
  0 <= Py.from_bytes bs < 256 ^ Z.of_nat (length bs).
Proof.
  induction bs as [|b bs IH] using rev_ind; [unfold Py.from_bytes; simpl; lia|].
  rewrite from_bytes_snoc, length_app. cbn [length].
  replace (Z.of_nat (length bs + 1)) with (Z.succ (Z.of_nat (length bs))) by lia.
  rewrite Z.pow_succ_r by lia. pose proof (byte_to_Z_range b). nia.
Qed.

Lemma be_digits_from_bytes (bs : bytes) :
  Py.be_digits (length bs) (Py.from_bytes bs) = bs.
Proof.
  induction bs as [|b bs IH] using rev_ind; [reflexivity|].
  rewrite from_bytes_snoc, length_app. cbn [length].
  rewrite Nat.add_1_r. cbn [Py.be_digits].
  pose proof (byte_to_Z_range b).
  replace ((Py.from_bytes bs * 256 + Py.byte_to_Z b) / 256) with (Py.from_bytes bs)
    by euclid.
  replace ((Py.from_bytes bs * 256 + Py.byte_to_Z b) mod 256) with (Py.byte_to_Z b)
    by euclid.
  rewrite IH, byte_of_to_Z. reflexivity.
Qed.

Lemma rebuild_unresolved (ids : list Z) (unspec : list str) (m : gmap Z str)
    (i : nat) (id : Z) :
  nth_error ids i = Some id -> id <> code UNSPECIFIED -> m !! id = None ->
  nth_error (rebuild ids unspec m) i = Some (MISSING_id id).
Proof.
  revert i unspec. induction ids as [|x ids IH]; intros [|i] unspec;
    try discriminate; cbn [nth_error rebuild].
  - intros [= ->] Hne Hm. destruct (Z.eqb_spec id (code UNSPECIFIED)); [contradiction|].
    rewrite Hm. reflexivity.
  - intros Hi Hne Hm. destruct (x =? code UNSPECIFIED).
    + destruct unspec; cbn [nth_error]; apply IH; assumption.
    + cbn [nth_error]. apply IH; assumption.
Qed.

(** A sentinel takes the next literal token, or the placeholder when the
    literal tokens are used up. *)
Lemma rebuild_sentinel (ids : list Z) (unspec : list str) (m : gmap Z str)
    (i : nat) :
  nth_error ids i = Some (code UNSPECIFIED) ->
  nth_error (rebuild ids unspec m) i
  = Some (nth (sentinels_before i ids) unspec MISSING).
Proof.
  unfold sentinels_before.
  revert i unspec. induction ids as [|x ids IH]; intros [|i] unspec;
    try discriminate; cbn [nth_error rebuild firstn List.filter].
  - intros [= ->]. rewrite Z.eqb_refl. destruct unspec; reflexivity.
  - intros Hi. destruct (x =? code UNSPECIFIED).
    + destruct unspec as [|t unspec]; cbn [nth_error length nth].
      * rewrite (IH i [] Hi). destruct (length _); reflexivity.
      * apply IH, Hi.
    + cbn [nth_error]. apply IH, Hi.
Qed.

(** A frame with an id stream and a language byte above 16 is refused. *)
Lemma decompress_unknown_language (native : byteorder) (data : bytes)
    (c : connection) :
  5 <= Py.len data ->
  Py.from_bytes (Py.slice 1 5 data) <> 0 ->
  16 < Py.byte_to_Z (nth 0 data x00) ->
  decompress native data c = (Raise ValueError, c).
Proof.
  intros Hlen Hsize Hlang. unfold decompress. cbv zeta.
  destruct (Z.ltb_spec (Py.len data) 5); [lia|].
  destruct (Z.eqb_spec (Py.from_bytes (Py.slice 1 5 data)) 0); [contradiction|].
  rewrite Language_of_raises
    by (pose proof (byte_to_Z_range (nth 0 data x00)); lia).
  reflexivity.
Qed.

(* ================================================================== *)
(** * Part III: the claims of the specification *)
(* ================================================================== *)

(** C1. For every text whose tokens are all in the dictionary of the
    language with ids below 65536, [decompress (compress text lang)] is the
    tokens of the text, lowercased, joined by single spaces.  The frame
    format bounds the inputs: the language code fits the language byte and
    the id stream fits the 32-bit length field; the table has its primary
    key. *)
Theorem covered_text_roundtrip (U : Unicode) (native : byteorder)
    (text : str) (lang : Language) (c : connection) :
  UnicodeFacts U ->
  Sqlite.primary_key (words c) ->
  code lang < 256 ->
  2 * Py.len (tokenize U text) < 2 ^ 32 ->
  (forall token, In token (tokenize U text) ->
     exists id, Sqlite.select_id (words c) token (code lang) = Some id
                /\ 0 <= id < 65536) ->
  exists frame c',
    compress U native text lang c = (Ok frame, c')
    /\ words c' = words c
    /\ fst (decompress native frame c')
       = Ok (Py.join (Py.lit " ") (tokenize U text)).
Proof.
  intros HU Hpk Hlang Hsize Hcov.
  apply (roundtrip U HU native text lang c Hpk Hlang Hsize).
  intros token id Hin E. destruct (Hcov token Hin) as (id' & E' & Hid).
  rewrite E in E'. injection E' as <-. lia.
Qed.

Lemma covered_text_roundtrip_witness :
  exists frame c',
    compress Excerpt.unicode LittleEndian (Py.lit "Hello, world!") EN
      Excerpt.dictionary = (Ok frame, c')
    /\ words c' = words Excerpt.dictionary
    /\ fst (decompress LittleEndian frame c') = Ok (Py.lit "hello world").
Proof.
  apply (covered_text_roundtrip Excerpt.unicode LittleEndian
           (Py.lit "Hello, world!") EN Excerpt.dictionary).
  - exact excerpt_facts.
  - exact dictionary_primary_key.
  - simpl. lia.
  - vm_compute. reflexivity.
  - intros token Hin. vm_compute in Hin.
    destruct Hin as [<-|[<-|[]]].
    + exists 10. vm_compute. repeat split; discriminate.
    + exists 11. vm_compute. repeat split; discriminate.
Defined.

(** C2, as stated, fails on a little-endian host: with "hello" at id 10
    and "world" at id 11, [compress("hello world", EN)] is not
    [02 00 00 00 04 00 0A 00 0B], and [decompress] of these bytes is not
    "hello world". *)
Lemma big_endian_ids_refuted :
  fst (compress Excerpt.unicode LittleEndian (Py.lit "hello world") EN
         Excerpt.dictionary)
  <> Ok [x02; x00; x00; x00; x04; x00; x0a; x00; x0b]
  /\ fst (decompress LittleEndian [x02; x00; x00; x00; x04; x00; x0a; x00; x0b]
            Excerpt.dictionary)
     = Ok (Py.lit "[MISSING:2560] [MISSING:2816]").
Proof. split; [vm_compute; discriminate|vm_compute; reflexivity]. Qed.

(** C2, amended. [compress] writes the ids, one for each token in order,
    as unsigned 16-bit values in the byte order of the host, after a
    big-endian 32-bit count of their bytes.  With "hello" at id 10 and
    "world" at id 11, [compress("hello world", EN)] is
    [02 00 00 00 04 0A 00 0B 00] on a little-endian host and
    [02 00 00 00 04 00 0A 00 0B] on a big-endian one, and on either host
    [decompress] of the frame that [compress] produced gives
    "hello world". *)
Theorem ids_in_host_byte_order :
  (forall (U : Unicode) (native : byteorder) (text : str) (lang : Language)
          (c : connection),
      UnicodeFacts U ->
      Sqlite.unsigned_ids (words c) ->
      code lang < 256 ->
      0 < 2 * Py.len (tokenize U text) < 2 ^ 32 ->
      exists frame c',
        compress U native text lang c = (Ok frame, c')
        /\ Py.from_bytes (Py.slice 1 5 frame) = 2 * Py.len (tokenize U text)
        /\ Py.slice 5 (5 + 2 * Py.len (tokenize U text)) frame
           = flat_map (Np.u16_bytes native)
               (map (id_of (words c) (code lang)) (tokenize U text)))
  /\ fst (compress Excerpt.unicode LittleEndian (Py.lit "hello world") EN
            Excerpt.dictionary)
     = Ok [x02; x00; x00; x00; x04; x0a; x00; x0b; x00]
  /\ fst (compress Excerpt.unicode BigEndian (Py.lit "hello world") EN
            Excerpt.dictionary)
     = Ok [x02; x00; x00; x00; x04; x00; x0a; x00; x0b]
  /\ (forall native : byteorder,
        fst ((frame <- compress Excerpt.unicode native (Py.lit "hello world") EN ;;
              decompress native frame) Excerpt.dictionary)
        = Ok (Py.lit "hello world")).
Proof.
  split; [|split; [|split]].
  - intros U native text lang c HU Hun Hlang Hsize.
    assert (Hne : tokenize U text <> []).
    { intros E. rewrite E in Hsize. unfold Py.len in Hsize. simpl in Hsize. lia. }
    destruct (compress_run U HU native text lang c Hne Hlang) as (tail & E & _ & _).
    + lia.
    + intros token id _ Es. apply select_id_in in Es.
      unfold Sqlite.unsigned_ids in Hun. rewrite List.Forall_forall in Hun.
      exact (Hun _ Es).
    + set (tokens := tokenize U text) in *.
      set (ids := map (id_of (words c) (code lang)) tokens) in *.
      assert (Hlen : Py.len (Np.tobytes native ids) = 2 * Py.len tokens).
      { rewrite len_tobytes. unfold ids, Py.len. rewrite length_map. reflexivity. }
      assert (Hsz : Py.len (Py.be_digits 4 (2 * Py.len tokens)) = 4)
        by (unfold Py.len; rewrite length_be_digits; reflexivity).
      eexists _, _. split; [exact E|]. split.
      * change (Py.byte_of_Z (code lang)
                  :: Py.be_digits 4 (2 * Py.len tokens) ++ Np.tobytes native ids ++ tail)
          with ([Py.byte_of_Z (code lang)]
                  ++ Py.be_digits 4 (2 * Py.len tokens)
                  ++ Np.tobytes native ids ++ tail).
        replace 5 with (Py.len [Py.byte_of_Z (code lang)]
                        + Py.len (Py.be_digits 4 (2 * Py.len tokens)))
          by (rewrite Hsz; reflexivity).
        change 1 with (Py.len [Py.byte_of_Z (code lang)]) at 1.
        rewrite slice_app. apply from_bytes_to_bytes4. lia.
      * pose proof (slice_app (Py.byte_of_Z (code lang)
                                 :: Py.be_digits 4 (2 * Py.len tokens))
                      (Np.tobytes native ids) tail) as Hs.
        rewrite Hlen in Hs.
        replace (Py.len (Py.byte_of_Z (code lang)
                           :: Py.be_digits 4 (2 * Py.len tokens))) with 5 in Hs
          by (unfold Py.len in *; cbn [length]; lia).
        exact Hs.
  - vm_compute. reflexivity.
  - vm_compute. reflexivity.
  - intros native. destruct native; vm_compute; reflexivity.
Qed.

Lemma ids_in_host_byte_order_witness :
  exists frame c',
    compress Excerpt.unicode LittleEndian (Py.lit "hello world") EN
      Excerpt.dictionary = (Ok frame, c')
    /\ Py.from_bytes (Py.slice 1 5 frame) = 4
    /\ Py.slice 5 9 frame = [x0a; x00; x0b; x00].
Proof.
  destruct (proj1 ids_in_host_byte_order Excerpt.unicode LittleEndian
              (Py.lit "hello world") EN Excerpt.dictionary)
    as (frame & c' & Ec & Hsize & Hids).
  - exact excerpt_facts.
  - repeat constructor; simpl; lia.
  - simpl. lia.
  - vm_compute. split; reflexivity.
  - exists frame, c'. split; [exact Ec|]. split; [exact Hsize|exact Hids].
Defined.

(** C3. The claim that every CJK ideograph, Hiragana, Katakana or Hangul
    character is a token of its own does not hold of the code: [\w]
    matches these letters, so the first alternative takes a whole run.
    The first Chinese text in the test list of the source, U+4F60 U+597D
    U+4E16 U+754C, is one token of four characters. *)
Theorem ideograph_run_is_one_token :
  tokenize Excerpt.unicode [0x4F60; 0x597D; 0x4E16; 0x754C]
  = [[0x4F60; 0x597D; 0x4E16; 0x754C]]
  /\ Forall (fun c => ideograph c = true) [0x4F60; 0x597D; 0x4E16; 0x754C].
Proof. split; [vm_compute; reflexivity|repeat constructor]. Qed.

(** C4, as stated, fails: this frame is well formed, its language byte is
    17, and [decompress] raises [ValueError] on it, at [Language(data[0])]. *)
Lemma unknown_language_byte_raises :
  well_formed [x11; x00; x00; x00; x02; x0a; x00]
  /\ 0 <= Py.byte_to_Z x11 <= 255
  /\ fst (decompress LittleEndian [x11; x00; x00; x00; x02; x0a; x00]
            Excerpt.dictionary) = Raise ValueError.
Proof.
  split; [|split; [vm_compute; split; discriminate|reflexivity]].
  apply (wf_frame x11 [x00; x00; x00; x02] [x0a; x00] []); try reflexivity.
  left. reflexivity.
Qed.

(** C4, amended. [decompress] never raises on a well-formed frame whose
    language byte is that of a member of [Language] (0 to 16), or whose id
    stream is empty.  Where the id stream is not empty, an id that the
    dictionary does not have becomes "[MISSING:<id>]", and a sentinel
    becomes the next literal token, or "[MISSING]" when the literal tokens
    are used up.  A language byte above 16 before an id stream raises
    [ValueError]. *)
Theorem well_formed_frames_decode (native : byteorder) :
  (forall (data : bytes) (c : connection),
      well_formed data ->
      Py.from_bytes (Py.slice 1 5 data) = 0
      \/ Py.byte_to_Z (nth 0 data x00) <= 16 ->
      exists out c', decompress native data c = (Ok out, c')
                     /\ words c' = words c)
  /\ (forall (head : byte) (idstream tail : bytes) (ids : list Z)
             (lang : Language) (c : connection),
        0 < Py.len idstream < 2 ^ 32 ->
        Np.frombuffer native idstream = Ok ids ->
        Language_of (Py.byte_to_Z head) = Ok lang ->
        literal_section tail ->
        exists out,
          fst (decompress native
                 (head :: Py.be_digits 4 (Py.len idstream) ++ idstream ++ tail) c)
          = Ok (Py.join (Py.lit " ") out)
          /\ length out = length ids
          /\ (forall i id,
                nth_error ids i = Some id -> id <> code UNSPECIFIED ->
                Sqlite.select_id_word (words c) id (code lang) = None ->
                nth_error out i = Some (MISSING_id id))
          /\ (forall i,
                nth_error ids i = Some (code UNSPECIFIED) ->
                nth_error out i
                = Some (nth (sentinels_before i ids) (literals_after tail) MISSING)))
  /\ (forall (data : bytes) (c : connection),
        5 <= Py.len data ->
        Py.from_bytes (Py.slice 1 5 data) <> 0 ->
        16 < Py.byte_to_Z (nth 0 data x00) ->
        decompress native data c = (Raise ValueError, c)).
Proof.
  assert (Htails : forall tail, literal_section tail ->
                     tail = [] \/ exists literal, tail = x00 :: literal).
  { intros tail [->|(text & literal & _ & ->)];
      [left; reflexivity|right; exists literal; reflexivity]. }
  split; [|split].
  - intros data c Hwf Hlang.
    destruct Hwf as [head size idstream tail Hsize Hlen Heven Htail].
    assert (Hs1 : Py.slice 1 5 (head :: size ++ idstream ++ tail) = size).
    { change (head :: size ++ idstream ++ tail)
        with ([head] ++ size ++ idstream ++ tail).
      replace 5 with (Py.len [head] + Py.len size)
        by (unfold Py.len; rewrite Hsize; reflexivity).
      change 1 with (Py.len [head]). apply slice_app. }
    rewrite Hs1 in Hlang. cbn [nth] in Hlang.
    destruct (Z.eq_dec (Py.len idstream) 0) as [E0|Hpos].
    + assert (idstream = []) as ->
        by (destruct idstream; [reflexivity|discriminate]).
      cbn [app]. unfold decompress. cbv zeta.
      change (head :: size ++ tail) with ([head] ++ size ++ tail ++ []) in Hs1.
      assert (Hdata : Py.len (head :: size ++ tail) = 5 + Py.len tail).
      { unfold Py.len. cbn [length]. rewrite length_app, Hsize. lia. }
      cbn [app] in Hs1. rewrite Hs1, Hlen, Hdata. cbn [Py.len length Z.of_nat Z.eqb].
      destruct (Z.ltb_spec (5 + Py.len tail) 5); [unfold Py.len in *; lia|].
      destruct (Z.ltb_spec 5 (5 + Py.len tail)) as [Hmore|_];
        [|eexists _, c; split; reflexivity].
      assert (Hrest : Py.slice_from 5 (head :: size ++ tail) = tail).
      { replace 5 with (Py.len (head :: size))
          by (unfold Py.len; cbn [length]; rewrite Hsize; reflexivity).
        apply (slice_from_app (head :: size) tail). }
      rewrite Hrest.
      destruct Htail as [->|(text & literal & E & ->)];
        [unfold Py.len in Hmore; simpl in Hmore; lia|].
      assert (E' : Utf8.encode (0 :: text) = Ok (x00 :: literal))
        by (cbn [Utf8.encode]; rewrite E; reflexivity).
      unfold bind, lift. rewrite (decode_encode _ _ E').
      eexists _, c. split; reflexivity.
    + pose proof (from_bytes_range size) as Hrange. rewrite Hsize, Hlen in Hrange.
      destruct Hlang as [Hzero|Hbyte]; [congruence|].
      destruct (Language_of_ok (Py.byte_to_Z head)) as (lang & El & _);
        [pose proof (byte_to_Z_range head); lia|].
      destruct (frombuffer_even native idstream Heven) as (ids & Eb & _ & _).
      destruct (decompress_run native head idstream tail ids lang c)
        as (m & Ed & _); try assumption.
      * unfold Py.len in *. simpl in Hrange. lia.
      * apply Htails, Htail.
      * rewrite <- Hlen, <- Hsize, be_digits_from_bytes in Ed.
        eexists _, _. split; [exact Ed|reflexivity].
  - intros head idstream tail ids lang c Hlen Eb El Htail.
    destruct (decompress_run native head idstream tail ids lang c Hlen Eb El
                (Htails tail Htail)) as (m & Ed & Hm).
    exists (rebuild ids (literals_after tail) m). rewrite Ed. cbn [fst].
    split; [reflexivity|]. split; [apply rebuild_length|]. split.
    + intros i id Hi Hne Hnone. apply rebuild_unresolved; try assumption.
      rewrite Hm, Hnone; [reflexivity| |exact Hne].
      apply nth_error_In in Hi. exact Hi.
    + intros i Hi. apply rebuild_sentinel, Hi.
  - apply decompress_unknown_language.
Qed.

Lemma well_formed_frames_decode_witness :
  exists out c',
    decompress LittleEndian [x02; x00; x00; x00; x04; xff; xff; x63; x00]
      Excerpt.dictionary = (Ok out, c')
    /\ words c' = words Excerpt.dictionary.
Proof.
  apply (proj1 (well_formed_frames_decode LittleEndian)
           [x02; x00; x00; x00; x04; xff; xff; x63; x00] Excerpt.dictionary).
  - apply (wf_frame x02 [x00; x00; x00; x04] [xff; xff; x63; x00] []);
      try reflexivity.
    left. reflexivity.
  - right. vm_compute. discriminate.
Defined.


(** C5. A text without tokens (the empty string is one) compresses to
    exactly five bytes, the language byte and four zero bytes, and
    [decompress] turns these five bytes into the empty string. *)
Theorem empty_text_minimal_frame (U : Unicode) (native : byteorder)
    (text : str) (lang : Language) (c : connection) :
  tokenize U text = [] ->
  code lang < 256 ->
  tokenize U [] = []
  /\ compress U native text lang c
     = (Ok [Py.byte_of_Z (code lang); x00; x00; x00; x00], c)
  /\ length [Py.byte_of_Z (code lang); x00; x00; x00; x00] = 5%nat
  /\ decompress native [Py.byte_of_Z (code lang); x00; x00; x00; x00] c
     = (Ok [], c).
Proof.
  intros E Hlang. split; [reflexivity|].
  split; [exact (compress_empty U native text lang c E Hlang)|].
  split; reflexivity.
Qed.

Lemma empty_text_minimal_frame_witness :
  compress Excerpt.unicode LittleEndian [] EN Excerpt.dictionary
  = (Ok [x02; x00; x00; x00; x00], Excerpt.dictionary)
  /\ decompress LittleEndian [x02; x00; x00; x00; x00] Excerpt.dictionary
     = (Ok [], Excerpt.dictionary).
Proof.
  destruct (empty_text_minimal_frame Excerpt.unicode LittleEndian [] EN
              Excerpt.dictionary) as (_ & Hc & _ & Hd).
  - reflexivity.
  - simpl. lia.
  - split; [exact Hc|exact Hd].
Defined.

(** C6. When a token sequence holds a token that the dictionary does not
    have, every such token reappears, lowercased as the tokenizer left
    it, at its position in the decompressed text.  In the scenario
    [compress("xyz123 world", EN)], with "world" at id 11 and "xyz123"
    absent, the id stream is [0xFFFF, 0x000B], the literal section is
    "xyz123", and [decompress] gives "xyz123 world". *)
Theorem literal_tokens_reappear :
  (forall (U : Unicode) (native : byteorder) (text : str) (lang : Language)
          (c : connection),
      UnicodeFacts U ->
      Sqlite.primary_key (words c) ->
      Sqlite.unsigned_ids (words c) ->
      code lang < 256 ->
      2 * Py.len (tokenize U text) < 2 ^ 32 ->
      (exists token, In token (tokenize U text)
                     /\ Sqlite.select_id (words c) token (code lang) = None) ->
      exists frame c' out,
        compress U native text lang c = (Ok frame, c')
        /\ fst (decompress native frame c') = Ok (Py.join (Py.lit " ") out)
        /\ length out = length (tokenize U text)
        /\ forall i token,
             nth_error (tokenize U text) i = Some token ->
             Sqlite.select_id (words c) token (code lang) = None ->
             nth_error out i = Some token)
  /\ (forall native : byteorder,
        let frame := [x02; x00; x00; x00; x04] ++ Np.tobytes native [0xFFFF; 0x000B]
                     ++ [x00] ++ [x78; x79; x7a; x31; x32; x33] in
        fst (compress Excerpt.unicode native (Py.lit "xyz123 world") EN
               Excerpt.dictionary) = Ok frame
        /\ Utf8.encode (Py.lit "xyz123") = Ok [x78; x79; x7a; x31; x32; x33]
        /\ fst (decompress native frame Excerpt.dictionary)
           = Ok (Py.lit "xyz123 world")).
Proof.
  split.
  - intros U native text lang c HU Hpk Hun Hlang Hsize _.
    destruct (roundtrip U HU native text lang c Hpk Hlang Hsize)
      as (frame & c' & Ec & _ & Ed).
    + intros token id _ E. apply select_id_in in E.
      unfold Sqlite.unsigned_ids in Hun. rewrite List.Forall_forall in Hun.
      exact (Hun _ E).
    + exists frame, c', (tokenize U text). repeat split; try assumption.
      intros i token Hi _. exact Hi.
  - intros native. destruct native; vm_compute; repeat split; reflexivity.
Qed.

Lemma literal_tokens_reappear_witness :
  exists frame c' out,
    compress Excerpt.unicode BigEndian (Py.lit "Hello brave world") EN
      Excerpt.dictionary = (Ok frame, c')
    /\ fst (decompress BigEndian frame c') = Ok (Py.join (Py.lit " ") out)
    /\ length out = 3%nat
    /\ nth_error out 1 = Some (Py.lit "brave").
Proof.
  destruct (proj1 literal_tokens_reappear Excerpt.unicode BigEndian
              (Py.lit "Hello brave world") EN Excerpt.dictionary)
    as (frame & c' & out & Ec & Ed & Hlen & Hout).
  - exact excerpt_facts.
  - exact dictionary_primary_key.
  - repeat constructor; simpl; lia.
  - simpl. lia.
  - vm_compute. reflexivity.
  - exists (Py.lit "brave"). split; [vm_compute; tauto|reflexivity].
  - exists frame, c', out. repeat split; try assumption.
    apply Hout; reflexivity.
Defined.

(** C7. The dictionary that [compress] builds from the store never holds
    an id of 65536 or more, even when the row that the store returns for
    the word has one; the token of such a row gets the sentinel in the id
    stream and its text in the literal section. *)
Theorem oversize_ids_are_not_found :
  (forall (uniq : list str) (lang : Z) (c : connection),
      exists lookup c',
        lookup_words uniq lang ∅ c = (Ok lookup, c')
        /\ (forall word id, lookup !! word = Some id -> id < 65536)
        /\ (forall word id,
              Sqlite.select_id (words c) word lang = Some id -> 65536 <= id ->
              lookup !! word = None))
  /\ (forall (U : Unicode) (native : byteorder) (text : str) (lang : Language)
             (c : connection) (i : nat) (token : str) (id : Z),
        UnicodeFacts U ->
        Sqlite.unsigned_ids (words c) ->
        code lang < 256 ->
        2 * Py.len (tokenize U text) < 2 ^ 32 ->
        nth_error (tokenize U text) i = Some token ->
        Sqlite.select_id (words c) token (code lang) = Some id ->
        65536 <= id ->
        let ids := map (id_of (words c) (code lang)) (tokenize U text) in
        let literals :=
          Np.select (tokenize U text) (map (fun id => id =? code UNSPECIFIED) ids) in
        exists literal c',
          compress U native text lang c
          = (Ok (Py.byte_of_Z (code lang)
                   :: Py.be_digits 4 (2 * Py.len (tokenize U text))
                   ++ Np.tobytes native ids ++ x00 :: literal), c')
          /\ nth_error ids i = Some (code UNSPECIFIED)
          /\ Utf8.encode (Py.join (Py.lit "|") literals) = Ok literal
          /\ In token literals).
Proof.
  split.
  - intros uniq lang c.
    destruct (lookup_words_run uniq lang ∅ c) as (m & Erun & Hm).
    eexists m, _. split; [exact Erun|]. split.
    + intros word id. rewrite Hm.
      destruct (decide (word ∈ uniq)); [|rewrite lookup_empty; discriminate].
      destruct (entry (words c) lang word) as [id'|] eqn:E;
        [|rewrite lookup_empty; discriminate].
      intros [= <-]. apply entry_some in E as [_ Hlt]. exact Hlt.
    + intros word id Es Hid. rewrite Hm. unfold entry. rewrite Es.
      destruct (Z.ltb_spec id 65536); [lia|].
      destruct (decide (word ∈ uniq)); apply lookup_empty.
  - intros U native text lang c i token id HU Hun Hlang Hsize Hi Es Hid ids literals.
    assert (Hne : tokenize U text <> []).
    { intros E. rewrite E in Hi. destruct i; discriminate. }
    assert (Hsent : id_of (words c) (code lang) token = code UNSPECIFIED).
    { unfold id_of, entry. rewrite Es.
      destruct (Z.ltb_spec id 65536); [lia|reflexivity]. }
    destruct (select_sentinel _ (id_of (words c) (code lang)) i token Hi Hsent)
      as [Hnth Hin].
    destruct (compress_run U HU native text lang c Hne Hlang Hsize)
      as (tail & E & _ & [[Hnil _]|[_ (literal & Eenc & _ & ->)]]).
    + intros t j _ Et. apply select_id_in in Et.
      unfold Sqlite.unsigned_ids in Hun. rewrite List.Forall_forall in Hun.
      exact (Hun _ Et).
    + rewrite Hnil in Hin. destruct Hin.
    + eexists literal, _. split; [exact E|]. repeat split; assumption.
Qed.

Lemma oversize_ids_are_not_found_witness :
  let store :=
    Connection [Row 70000 (Py.lit "hello") (code EN); Row 11 (Py.lit "world") (code EN)] [] in
  exists literal c',
    compress Excerpt.unicode LittleEndian (Py.lit "hello world") EN store
    = (Ok ([x02; x00; x00; x00; x04; xff; xff; x0b; x00] ++ x00 :: literal), c')
    /\ Utf8.encode (Py.lit "hello") = Ok literal.
Proof.
  intros store.
  destruct (proj2 oversize_ids_are_not_found Excerpt.unicode LittleEndian
              (Py.lit "hello world") EN store 0%nat (Py.lit "hello") 70000)
    as (literal & c' & Ec & _ & Eenc & _).
  - exact excerpt_facts.
  - repeat constructor; simpl; lia.
  - simpl. lia.
  - vm_compute. reflexivity.
  - reflexivity.
  - reflexivity.
  - lia.
  - exists literal, c'. split; [exact Ec|exact Eenc].
Defined.

(** C8. Loading the same entries a second time leaves the table as the
    first load left it, row for row, so that every query by word and
    every query by id answers as before; the second load ends as the first
    did. *)
Theorem load_is_idempotent (U : Unicode) (entries : list (Z * str))
    (lang : Language) (c : connection) :
  let once := snd (load U entries lang c) in
  let twice := snd (load U entries lang once) in
  words twice = words once
  /\ (forall word l,
        Sqlite.select_id (words twice) word l = Sqlite.select_id (words once) word l)
  /\ (forall id l,
        Sqlite.select_id_word (words twice) id l
        = Sqlite.select_id_word (words once) id l)
  /\ fst (load U entries lang once) = fst (load U entries lang c).
Proof.
  intros once twice.
  assert (E : words twice = words once).
  { unfold twice, once, load. rewrite !executemany_words.
    apply upserts_idempotent. }
  split; [exact E|]. rewrite E. repeat split.
  unfold load. rewrite !executemany_result. reflexivity.
Qed.

(** C9. The claim that [compress] and [decompress] issue one batched
    query does not hold of the code: each comprehension executes one
    SELECT for each distinct token or id.  For every input [compress]
    executes the statements below, one for each element of
    [np.unique(tokens)], which holds each token of the text once;
    "hello world hello" costs two statements to compress and its frame two
    more to decompress. *)
Theorem one_select_per_distinct_value :
  (forall (U : Unicode) (native : byteorder) (text : str) (lang : Language)
          (c : connection),
      executed (snd (compress U native text lang c))
      = executed c
        ++ map (fun token => SelectId token (code lang))
             (Np.unique Np.str_compare (tokenize U text))
      /\ List.NoDup (Np.unique Np.str_compare (tokenize U text))
      /\ forall token,
           In token (Np.unique Np.str_compare (tokenize U text))
           <-> In token (tokenize U text))
  /\ executed (snd (compress Excerpt.unicode LittleEndian
                      (Py.lit "hello world hello") EN Excerpt.dictionary))
     = [SelectId (Py.lit "hello") 2; SelectId (Py.lit "world") 2]
  /\ executed (snd (decompress LittleEndian
                      [x02; x00; x00; x00; x06; x0a; x00; x0b; x00; x0a; x00]
                      Excerpt.dictionary))
     = [SelectIdWord 10 2; SelectIdWord 11 2].
Proof.
  split; [|split].
  - intros U native text lang c. rewrite compress_executed.
    split; [reflexivity|]. split; [apply unique_tokens_NoDup|].
    intros token. apply in_unique, str_compare_eq.
  - vm_compute. reflexivity.
  - vm_compute. reflexivity.
Qed.

(** C10. No token holds a [|] or a NUL, so whatever tokens go to the
    literal section, the decoder finds them again: its scan for the
    marker and its split at [|] give back the tokens that were joined. *)
Theorem tokens_hold_no_separator (U : Unicode) (text : str) :
  UnicodeFacts U ->
  (forall token, In token (tokenize U text) ->
                 ~ In 0x7C token /\ ~ In 0 token)
  /\ (forall mask,
        Np.select (tokenize U text) mask <> [] ->
        exists literal,
          Utf8.encode (Py.join (Py.lit "|") (Np.select (tokenize U text) mask))
          = Ok literal
          /\ literals_after (x00 :: literal) = Np.select (tokenize U text) mask).
Proof.
  intros HU. split.
  - intros token Hin. apply (tokenize_tokens U HU) in Hin.
    split; [apply token_like_no_bar|apply token_like_no_nul]; exact Hin.
  - intros mask Hne.
    destruct (literals_encode U HU text mask Hne) as (literal & E & Hlit).
    exists literal. split; [exact E|].
    destruct literal as [|b literal]; [congruence|].
    cbn [literals_after]. rewrite (Byte.byte_dec_lb (eq_refl x00)).
    rewrite (decode_ignore_encode _ _ E).
    apply (split_join 0x7C _ Hne).
    apply List.Forall_forall. intros t Ht.
    apply token_like_no_bar, (tokenize_tokens U HU text), (select_in _ _ _ Ht).
Qed.

Lemma tokens_hold_no_separator_witness :
  tokenize Excerpt.unicode (Py.lit "it's a|b") = [Py.lit "it's"; Py.lit "a"; Py.lit "b"]
  /\ exists literal,
       Utf8.encode (Py.lit "it's|b") = Ok literal
       /\ literals_after (x00 :: literal) = [Py.lit "it's"; Py.lit "b"].
Proof.
  split; [reflexivity|].
  exact (proj2 (tokens_hold_no_separator Excerpt.unicode (Py.lit "it's a|b")
                  excerpt_facts) [true; false; true] ltac:(discriminate)).
Defined.

(* ================================================================== *)
(** * Part IV: further properties of the code *)
(* ================================================================== *)

(** ** The tokenizer *)

Lemma span_app (p : Z -> bool) (s : str) :
  fst (span p s) ++ snd (span p s) = s.
Proof.
  induction s as [|c s IH]; [reflexivity|]. cbn [span].
  destruct (p c); [|reflexivity].
  destruct (span p s) as [run tail]. cbn [fst snd app] in *. rewrite IH.
  reflexivity.
Qed.

Lemma span_app_sep (p : Z -> bool) (s t : str) (c : Z) :
  p c = false ->
  span p (s ++ c :: t) = (fst (span p s), snd (span p s) ++ c :: t).
Proof.
  intros Hc. induction s as [|a s IH]; cbn [app span].
  - rewrite Hc. reflexivity.
  - destruct (p a); [|reflexivity]. rewrite IH.
    destruct (span p s) as [run tail]. reflexivity.
Qed.

Lemma filter_all {A} (p : A -> bool) (l : list A) :
  Forall (fun x => p x = true) l -> List.filter p l = l.
Proof.
  induction 1 as [|x l Hx _ IH]; [reflexivity|]. cbn [List.filter].
  rewrite Hx, IH. reflexivity.
Qed.

Section TokenizerMore.
Variable U : Unicode.

Lemma kept_word (c : Z) : word_class U c = true -> kept U c = true.
Proof. unfold kept. intros ->. reflexivity. Qed.

Lemma findall_from_concat (steps : nat) (text : str) :
  (length text <= steps)%nat ->
  concat (findall_from U steps text) = List.filter (kept U) text.
Proof.
  revert text. induction steps as [|steps IH]; intros text Hlen.
  - destruct text; [reflexivity|simpl in Hlen; lia].
  - destruct text as [|c rest]; [reflexivity|]. cbn [length] in Hlen.
    cbn [findall_from List.filter]. unfold kept at 1.
    destruct (word_class U c) eqn:Hw; cbn [orb].
    + destruct (span (word_class U) rest) as [run tail] eqn:Es.
      pose proof (span_app (word_class U) rest) as Happ.
      pose proof (span_class (word_class U) rest run tail Es) as [Hrun Htail].
      rewrite Es in Happ. cbn [fst snd] in Happ.
      cbn [concat app]. rewrite IH by lia. rewrite <- Happ.
      rewrite List.filter_app. f_equal. f_equal. symmetry. apply filter_all.
      eapply List.Forall_impl; [|exact Hrun]. intros a. apply kept_word.
    + destruct (ideograph c); [cbn [concat app orb]; rewrite IH by lia; reflexivity|].
      destruct (hiragana c); [cbn [concat app orb]; rewrite IH by lia; reflexivity|].
      destruct (katakana c); [cbn [concat app orb]; rewrite IH by lia; reflexivity|].
      destruct (hangul c); [cbn [concat app orb]; rewrite IH by lia; reflexivity|].
      cbn [orb]. apply IH. lia.
Qed.

Lemma findall_from_kept (steps : nat) (text t : str) :
  In t (findall_from U steps text) ->
  t <> [] /\ Forall (fun c => kept U c = true) t.
Proof.
  revert text. induction steps as [|steps IH]; intros text; [intros []|].
  cbn [findall_from]. destruct text as [|c rest]; [intros []|].
  destruct (word_class U c) eqn:Hw.
  - destruct (span (word_class U) rest) as [run tail] eqn:Es.
    intros [<-|Hin]; [|exact (IH _ Hin)].
    split; [discriminate|]. constructor; [apply kept_word, Hw|].
    apply span_class in Es as [Hrun _].
    eapply List.Forall_impl; [|exact Hrun]. intros a. apply kept_word.
  - destruct (ideograph c) eqn:H1.
    { intros [<-|Hin]; [|exact (IH _ Hin)]. split; [discriminate|].
      repeat constructor. unfold kept. rewrite Hw, H1. reflexivity. }
    destruct (hiragana c) eqn:H2.
    { intros [<-|Hin]; [|exact (IH _ Hin)]. split; [discriminate|].
      repeat constructor. unfold kept. rewrite Hw, H1, H2. reflexivity. }
    destruct (katakana c) eqn:H3.
    { intros [<-|Hin]; [|exact (IH _ Hin)]. split; [discriminate|].
      repeat constructor. unfold kept. rewrite Hw, H1, H2, H3. reflexivity. }
    destruct (hangul c) eqn:H4.
    { intros [<-|Hin]; [|exact (IH _ Hin)]. split; [discriminate|].
      repeat constructor. unfold kept. rewrite Hw, H1, H2, H3, H4. reflexivity. }
    apply IH.
Qed.

Lemma findall_from_sep (k : nat) (s t : str) (c : Z) :
  kept U c = false ->
  (length s <= k)%nat ->
  forall n, (length (s ++ c :: t) <= n)%nat ->
    findall_from U n (s ++ c :: t) = findall_from U k s ++ findall U t.
Proof.
  intros Hc. unfold kept in Hc.
  apply orb_false_iff in Hc as [Hc H4]. apply orb_false_iff in Hc as [Hc H3].
  apply orb_false_iff in Hc as [Hc H2]. apply orb_false_iff in Hc as [Hw H1].
  revert s. induction k as [|k IH]; intros s Hk n Hn.
  - destruct s; [|simpl in Hk; lia]. cbn [app] in *.
    destruct n as [|n]; [simpl in Hn; lia|].
    cbn [findall_from]. rewrite Hw, H1, H2, H3, H4.
    apply findall_from_enough. simpl in Hn. lia.
  - destruct s as [|a s].
    + cbn [app] in *. destruct n as [|n]; [simpl in Hn; lia|].
      cbn [findall_from]. rewrite Hw, H1, H2, H3, H4.
      apply findall_from_enough. simpl in Hn. lia.
    + cbn [app length] in *. destruct n as [|n]; [lia|].
      cbn [findall_from].
      rewrite (span_app_sep (word_class U) s t c Hw).
      destruct (span (word_class U) s) as [run tail] eqn:Es. cbn [fst snd].
      pose proof (span_class (word_class U) s run tail Es) as [_ Htail].
      assert (Hs : (length (s ++ c :: t) <= n)%nat) by lia.
      assert (Htl : (length (tail ++ c :: t) <= n)%nat).
      { rewrite length_app in *. cbn [length] in *. lia. }
      destruct (word_class U a).
      { rewrite (IH tail) by lia. reflexivity. }
      destruct (ideograph a); [rewrite (IH s) by lia; reflexivity|].
      destruct (hiragana a); [rewrite (IH s) by lia; reflexivity|].
      destruct (katakana a); [rewrite (IH s) by lia; reflexivity|].
      destruct (hangul a); [rewrite (IH s) by lia; reflexivity|].
      apply IH; lia.
Qed.

End TokenizerMore.

(** X1. The tokenizer keeps exactly the characters of the classes of its
    pattern, in their order, and drops the others: the matches, put end
    to end, are the text without its separators, and no match is empty. *)
Theorem findall_keeps_class_characters (U : Unicode) (text : str) :
  concat (findall U text) = List.filter (kept U) text
  /\ Forall (fun t => t <> [] /\ Forall (fun c => kept U c = true) t)
       (findall U text).
Proof.
  split.
  - apply findall_from_concat. reflexivity.
  - apply List.Forall_forall. intros t Ht.
    exact (findall_from_kept U _ _ _ Ht).
Qed.

(** X2. A text has no tokens exactly when none of its characters is in a
    class of the pattern: only such texts take the five-byte branch of
    [compress]. *)
Theorem no_tokens_iff_only_separators (U : Unicode) (text : str) :
  tokenize U text = [] <-> Forall (fun c => kept U c = false) text.
Proof.
  assert (Hmap : tokenize U text = [] <-> findall U text = []).
  { unfold tokenize, Np.str_array. rewrite map_map.
    destruct (findall U text); split; intros E; try reflexivity; discriminate. }
  rewrite Hmap. split.
  - intros E. pose proof (findall_from_concat U (length text) text (le_n _)) as Hc.
    fold (findall U text) in Hc. rewrite E in Hc. cbn [concat] in Hc.
    apply List.Forall_forall. intros c Hin.
    destruct (kept U c) eqn:Hk; [|reflexivity].
    assert (Hf : In c (List.filter (kept U) text))
      by (apply filter_In; split; assumption).
    rewrite <- Hc in Hf. destruct Hf.
  - intros Hall.
    pose proof (findall_from_concat U (length text) text (le_n _)) as Hc.
    fold (findall U text) in Hc.
    assert (Hnone : List.filter (kept U) text = []).
    { clear Hc Hmap. induction Hall as [|c text Hc _ IH]; [reflexivity|].
      cbn [List.filter]. rewrite Hc. exact IH. }
    rewrite Hnone in Hc.
    destruct (findall U text) as [|t ts] eqn:E; [reflexivity|].
    assert (Ht : In t (findall U text)) by (rewrite E; left; reflexivity).
    destruct (findall_from_kept U _ _ _ Ht) as [Hne _].
    cbn [concat] in Hc. destruct t; [congruence|discriminate].
Qed.

(** X3. Tokenizing is local to the stretches between separators: around a
    character that is in no class of the pattern, the tokens of a text are
    those of what is before it followed by those of what is after it. *)
Theorem tokenize_splits_at_separator (U : Unicode) (s t : str) (c : Z) :
  kept U c = false ->
  tokenize U (s ++ c :: t) = tokenize U s ++ tokenize U t.
Proof.
  intros Hc. unfold tokenize, Np.str_array, findall at 1.
  rewrite (findall_from_sep U (length s) s t c Hc (le_n _) _ (le_n _)).
  fold (findall U s). rewrite !map_app. reflexivity.
Qed.

Lemma tokenize_splits_at_separator_witness :
  tokenize Excerpt.unicode (Py.lit "it's, so")
  = tokenize Excerpt.unicode (Py.lit "it's") ++ tokenize Excerpt.unicode (Py.lit " so").
Proof.
  exact (tokenize_splits_at_separator Excerpt.unicode (Py.lit "it's")
           (Py.lit " so") 0x2C eq_refl).
Defined.

(** ** Frames and stores *)

Section CodecMore.
Variable U : Unicode.
Hypothesis HU : UnicodeFacts U.
Variable native : byteorder.

(** Decoding with another store than the one that encoded. *)
Lemma roundtrip_across (text : str) (lang : Language) (c1 c2 : connection) :
  code lang < 256 ->
  2 * Py.len (tokenize U text) < 2 ^ 32 ->
  (forall token id,
      In token (tokenize U text) ->
      Sqlite.select_id (words c1) token (code lang) = Some id -> 0 <= id) ->
  (forall token id,
      In token (tokenize U text) ->
      entry (words c1) (code lang) token = Some id ->
      id <> code UNSPECIFIED ->
      Sqlite.select_id_word (words c2) id (code lang) = Some (id, token)) ->
  exists frame c1',
    compress U native text lang c1 = (Ok frame, c1')
    /\ fst (decompress native frame c2)
       = Ok (Py.join (Py.lit " ") (tokenize U text)).
Proof.
  intros Hlang Hsize Hpos Hdec.
  destruct (tokenize U text) as [|t0 tokens0] eqn:Etok.
  { exists [Py.byte_of_Z (code lang); x00; x00; x00; x00], c1.
    rewrite (compress_empty U native text lang c1 Etok Hlang). split; reflexivity. }
  assert (Hne : tokenize U text <> []) by (rewrite Etok; discriminate).
  rewrite <- Etok in *. clear Etok t0 tokens0.
  destruct (compress_run U HU native text lang c1 Hne Hlang Hsize Hpos)
    as (tail & Ecomp & Hu16 & Htail).
  set (tokens := tokenize U text) in *.
  set (ids := map (id_of (words c1) (code lang)) tokens) in *.
  set (literals := Np.select tokens (map (fun id => id =? code UNSPECIFIED) ids)) in *.
  assert (Hlen : Py.len (Np.tobytes native ids) = 2 * Py.len tokens).
  { rewrite len_tobytes. unfold ids, Py.len. rewrite length_map. reflexivity. }
  assert (Hpos' : 0 < Py.len tokens).
  { unfold Py.len. destruct tokens; [congruence|]. simpl. lia. }
  destruct (decompress_run native (Py.byte_of_Z (code lang))
              (Np.tobytes native ids) tail ids lang c2) as (m & Edec & Hm).
  - lia.
  - apply frombuffer_tobytes, Hu16.
  - rewrite byte_to_of_Z by (pose proof (code_nonneg lang); lia).
    apply Language_of_code.
  - destruct Htail as [[_ ->]|[_ (literal & _ & _ & ->)]];
      [left; reflexivity|right; exists literal; reflexivity].
  - rewrite Hlen in Edec. eexists _, _. split; [exact Ecomp|].
    rewrite Edec. cbn [fst]. do 2 f_equal.
    assert (Hlits : literals_after tail = literals).
    { destruct Htail as [[-> ->]|[Hlits (literal & E & Hnonempty & ->)]];
        [reflexivity|].
      cbn [literals_after]. destruct literal as [|b literal]; [congruence|].
      rewrite (Byte.byte_dec_lb (eq_refl x00)).
      rewrite (decode_ignore_encode _ _ E).
      apply (split_join 0x7C literals Hlits).
      apply List.Forall_forall. intros t Ht.
      apply token_like_no_bar, (tokenize_tokens U HU text).
      apply (select_in _ _ _ Ht). }
    rewrite Hlits. apply rebuild_tokens.
    intros token Hin Hid. rewrite Hm.
    + unfold id_of in Hid |- *.
      destruct (entry (words c1) (code lang) token) as [id|] eqn:E;
        [|contradiction Hid; reflexivity].
      simpl in Hid |- *. rewrite (Hdec token id Hin E Hid). reflexivity.
    + apply in_map, Hin.
    + exact Hid.
Qed.

Lemma kept_no_space (c : Z) : kept U c = true -> c <> 0x20.
Proof.
  unfold kept, word_class, ideograph, hiragana, katakana, hangul, between.
  intros H ->. rewrite (isalnum_ascii U HU) in H by lia. discriminate.
Qed.

Lemma tokens_no_space (text token : str) :
  In token (tokenize U text) -> ~ In 0x20 token.
Proof.
  rewrite (tokenize_lower U HU). rewrite in_map_iff.
  intros (raw & <- & Hraw) Hin.
  destruct (findall_from_kept U _ _ _ Hraw) as [_ Hall].
  destruct (lower_fresh U HU raw 0x20 Hin) as [Hin'|[_ Hr]]; [|lia].
  rewrite List.Forall_forall in Hall. exact (kept_no_space _ (Hall _ Hin') eq_refl).
Qed.

End CodecMore.

Lemma unsigned_select (c : connection) (lang : Z) (token : str) (id : Z) :
  Sqlite.unsigned_ids (words c) ->
  Sqlite.select_id (words c) token lang = Some id -> 0 <= id.
Proof.
  intros Hun E. apply select_id_in in E.
  unfold Sqlite.unsigned_ids in Hun. rewrite List.Forall_forall in Hun.
  exact (Hun _ E).
Qed.

(** X4. No token holds a space, so the text that [decompress] gives back
    for a frame of [compress] splits at its spaces into the tokens of the
    text that was compressed. *)
Theorem decompressed_text_splits_into_tokens (U : Unicode) (native : byteorder)
    (text : str) (lang : Language) (c : connection) :
  UnicodeFacts U ->
  Sqlite.primary_key (words c) ->
  Sqlite.unsigned_ids (words c) ->
  code lang < 256 ->
  2 * Py.len (tokenize U text) < 2 ^ 32 ->
  tokenize U text <> [] ->
  (forall token, In token (tokenize U text) -> ~ In 0x20 token)
  /\ exists frame c' out,
       compress U native text lang c = (Ok frame, c')
       /\ fst (decompress native frame c') = Ok out
       /\ Py.split 0x20 out = tokenize U text.
Proof.
  intros HU Hpk Hun Hlang Hsize Hne. split; [apply tokens_no_space, HU|].
  destruct (roundtrip U HU native text lang c Hpk Hlang Hsize)
    as (frame & c' & Ec & _ & Ed).
  - intros token id _. apply unsigned_select, Hun.
  - exists frame, c', (Py.join (Py.lit " ") (tokenize U text)).
    split; [exact Ec|]. split; [exact Ed|].
    apply (split_join 0x20 _ Hne). apply List.Forall_forall.
    intros token. apply tokens_no_space, HU.
Qed.

Lemma decompressed_text_splits_into_tokens_witness :
  exists frame c' out,
    compress Excerpt.unicode LittleEndian (Py.lit "Hello, brave world") EN
      Excerpt.dictionary = (Ok frame, c')
    /\ fst (decompress LittleEndian frame c') = Ok out
    /\ Py.split 0x20 out = [Py.lit "hello"; Py.lit "brave"; Py.lit "world"].
Proof.
  apply (decompressed_text_splits_into_tokens Excerpt.unicode LittleEndian
           (Py.lit "Hello, brave world") EN Excerpt.dictionary).
  - exact excerpt_facts.
  - exact dictionary_primary_key.
  - repeat constructor; simpl; lia.
  - simpl. lia.
  - vm_compute. reflexivity.
  - discriminate.
Defined.

(** X5. The size of a frame: five bytes of header and two bytes for each
    token; when some token is written as the sentinel, one marker byte
    and the UTF-8 bytes of the literal tokens, joined by [|], follow. *)
Theorem frame_size (U : Unicode) (native : byteorder)
    (text : str) (lang : Language) (c : connection) :
  UnicodeFacts U ->
  Sqlite.unsigned_ids (words c) ->
  code lang < 256 ->
  2 * Py.len (tokenize U text) < 2 ^ 32 ->
  tokenize U text <> [] ->
  let tokens := tokenize U text in
  let literals :=
    Np.select tokens
      (map (fun id => id =? code UNSPECIFIED)
         (map (id_of (words c) (code lang)) tokens)) in
  exists frame c',
    compress U native text lang c = (Ok frame, c')
    /\ ((literals = [] /\ Py.len frame = 5 + 2 * Py.len tokens)
        \/ (literals <> []
            /\ exists literal,
                 Utf8.encode (Py.join (Py.lit "|") literals) = Ok literal
                 /\ Py.len frame = 5 + 2 * Py.len tokens + 1 + Py.len literal)).
Proof.
  intros HU Hun Hlang Hsize Hne tokens literals.
  destruct (compress_run U HU native text lang c Hne Hlang Hsize)
    as (tail & Ec & _ & Htail).
  - intros token id _. apply unsigned_select, Hun.
  - eexists _, _. split; [exact Ec|].
    fold tokens in Htail |- *. fold literals in Htail.
    assert (Hlen : forall tl : bytes,
      Py.len (Py.byte_of_Z (code lang)
                :: Py.be_digits 4 (2 * Py.len tokens)
                ++ Np.tobytes native (map (id_of (words c) (code lang)) tokens) ++ tl)
      = 5 + 2 * Py.len tokens + Py.len tl).
    { intros tl. pose proof (len_tobytes native
                               (map (id_of (words c) (code lang)) tokens)) as Ht.
      unfold Py.len in *. cbn [length].
      rewrite !length_app, length_be_digits, length_map in *. lia. }
    destruct Htail as [[Hnil ->]|[Hlits (literal & E & _ & ->)]].
    + left. split; [exact Hnil|]. rewrite Hlen. unfold Py.len. simpl. lia.
    + right. split; [exact Hlits|]. exists literal. split; [exact E|].
      rewrite Hlen. unfold Py.len. cbn [length]. lia.
Qed.

Lemma frame_size_witness :
  exists frame c',
    compress Excerpt.unicode LittleEndian (Py.lit "hello brave world") EN
      Excerpt.dictionary = (Ok frame, c')
    /\ Py.len frame = 5 + 2 * 3 + 1 + 5.
Proof.
  destruct (frame_size Excerpt.unicode LittleEndian (Py.lit "hello brave world")
              EN Excerpt.dictionary) as (frame & c' & Ec & [[Hnil _]|[_ Hlit]]).
  - exact excerpt_facts.
  - repeat constructor; simpl; lia.
  - simpl. lia.
  - vm_compute. reflexivity.
  - discriminate.
  - vm_compute in Hnil. discriminate.
  - destruct Hlit as (literal & E & Hlen). exists frame, c'.
    split; [exact Ec|]. vm_compute in E. injection E as <-. exact Hlen.
Defined.

(** X6. A word whose id in the dictionary is 65535 passes the test
    [row[0] < 65536] but its id is the sentinel: [compress] writes it as a
    literal token, and the text still comes back from [decompress]. *)
Theorem sentinel_id_goes_literal (U : Unicode) (native : byteorder)
    (text : str) (lang : Language) (c : connection) (i : nat) (token : str) :
  UnicodeFacts U ->
  Sqlite.primary_key (words c) ->
  Sqlite.unsigned_ids (words c) ->
  code lang < 256 ->
  2 * Py.len (tokenize U text) < 2 ^ 32 ->
  nth_error (tokenize U text) i = Some token ->
  Sqlite.select_id (words c) token (code lang) = Some 65535 ->
  let ids := map (id_of (words c) (code lang)) (tokenize U text) in
  let literals :=
    Np.select (tokenize U text) (map (fun id => id =? code UNSPECIFIED) ids) in
  exists literal c',
    compress U native text lang c
    = (Ok (Py.byte_of_Z (code lang)
             :: Py.be_digits 4 (2 * Py.len (tokenize U text))
             ++ Np.tobytes native ids ++ x00 :: literal), c')
    /\ entry (words c) (code lang) token = Some 65535
    /\ Utf8.encode (Py.join (Py.lit "|") literals) = Ok literal
    /\ In token literals
    /\ fst (decompress native
              (Py.byte_of_Z (code lang)
                 :: Py.be_digits 4 (2 * Py.len (tokenize U text))
                 ++ Np.tobytes native ids ++ x00 :: literal) c')
       = Ok (Py.join (Py.lit " ") (tokenize U text)).
Proof.
  intros HU Hpk Hun Hlang Hsize Hi Es ids literals.
  assert (Hpos : forall t id, In t (tokenize U text) ->
                   Sqlite.select_id (words c) t (code lang) = Some id -> 0 <= id)
    by (intros t id _; apply unsigned_select, Hun).
  assert (Hne : tokenize U text <> []).
  { intros E. rewrite E in Hi. destruct i; discriminate. }
  assert (Hentry : entry (words c) (code lang) token = Some 65535)
    by (unfold entry; rewrite Es; reflexivity).
  assert (Hsent : id_of (words c) (code lang) token = code UNSPECIFIED)
    by (unfold id_of; rewrite Hentry; reflexivity).
  destruct (select_sentinel _ (id_of (words c) (code lang)) i token Hi Hsent)
    as [_ Hin].
  destruct (compress_run U HU native text lang c Hne Hlang Hsize Hpos)
    as (tail & E & _ & [[Hnil _]|[_ (literal & Eenc & _ & ->)]]).
  - unfold literals, ids in *. rewrite Hnil in Hin. destruct Hin.
  - destruct (roundtrip U HU native text lang c Hpk Hlang Hsize Hpos)
      as (frame & c' & Ec & _ & Ed).
    rewrite E in Ec. injection Ec as <- <-.
    eexists literal, _. split; [exact E|]. repeat split; assumption.
Qed.

Lemma sentinel_id_goes_literal_witness :
  let store := Connection [Row 65535 (Py.lit "hello") (code EN)] [] in
  exists literal c',
    compress Excerpt.unicode LittleEndian (Py.lit "hello") EN store
    = (Ok ([x02; x00; x00; x00; x02; xff; xff] ++ x00 :: literal), c')
    /\ Utf8.encode (Py.lit "hello") = Ok literal
    /\ fst (decompress LittleEndian
              ([x02; x00; x00; x00; x02; xff; xff] ++ x00 :: literal) c')
       = Ok (Py.lit "hello").
Proof.
  intros store.
  destruct (sentinel_id_goes_literal Excerpt.unicode LittleEndian
              (Py.lit "hello") EN store 0%nat (Py.lit "hello"))
    as (literal & c' & Ec & _ & Eenc & _ & Ed).
  - exact excerpt_facts.
  - repeat constructor. intros [].
  - repeat constructor; simpl; lia.
  - simpl. lia.
  - vm_compute. reflexivity.
  - reflexivity.
  - reflexivity.
  - exists literal, c'. split; [exact Ec|]. split; [exact Eenc|exact Ed].
Defined.

(** X7. A frame can be decoded with another store than the one that
    encoded it, provided that store gives, for each id that was written,
    the token it was written for; the literal tokens need no store. *)
Theorem decoding_with_another_store (U : Unicode) (native : byteorder)
    (text : str) (lang : Language) (c1 c2 : connection) :
  UnicodeFacts U ->
  Sqlite.unsigned_ids (words c1) ->
  code lang < 256 ->
  2 * Py.len (tokenize U text) < 2 ^ 32 ->
  (forall token id,
      In token (tokenize U text) ->
      Sqlite.select_id (words c1) token (code lang) = Some id ->
      id < 65535 ->
      Sqlite.select_id_word (words c2) id (code lang) = Some (id, token)) ->
  exists frame c1',
    compress U native text lang c1 = (Ok frame, c1')
    /\ fst (decompress native frame c2)
       = Ok (Py.join (Py.lit " ") (tokenize U text)).
Proof.
  intros HU Hun Hlang Hsize Hdec.
  apply (roundtrip_across U HU native text lang c1 c2 Hlang Hsize).
  - intros token id _. apply unsigned_select, Hun.
  - intros token id Hin E Hid. apply entry_some in E as [E Hlt].
    apply (Hdec token id Hin E). simpl in Hid. lia.
Qed.

Lemma decoding_with_another_store_witness :
  let other :=
    Connection [Row 11 (Py.lit "world") (code EN); Row 7 (Py.lit "extra") (code EN);
                Row 10 (Py.lit "hello") (code EN)] [] in
  exists frame c1',
    compress Excerpt.unicode BigEndian (Py.lit "hello new world") EN
      Excerpt.dictionary = (Ok frame, c1')
    /\ fst (decompress BigEndian frame other) = Ok (Py.lit "hello new world").
Proof.
  intros other.
  apply (decoding_with_another_store Excerpt.unicode BigEndian
           (Py.lit "hello new world") EN Excerpt.dictionary other).
  - exact excerpt_facts.
  - repeat constructor; simpl; lia.
  - simpl. lia.
  - vm_compute. reflexivity.
  - intros token id Hin E _. vm_compute in Hin.
    destruct Hin as [<-|[<-|[<-|[]]]]; vm_compute in E;
      try discriminate; injection E as <-; reflexivity.
Defined.

Lemma tobytes_sentinels (native : byteorder) {A} (l : list A) :
  Np.tobytes native (map (fun _ => code UNSPECIFIED) l)
  = repeat xff (2 * length l).
Proof.
  induction l as [|x l IH]; [reflexivity|].
  cbn [map Np.tobytes flat_map length]. fold (Np.tobytes native).
  replace (2 * S (length l))%nat with (S (S (2 * length l))) by lia.
  fold (Np.tobytes native (map (fun _ : A => code UNSPECIFIED) l)).
  rewrite IH. destruct native; reflexivity.
Qed.

Lemma select_all_true {A} (l : list A) {B} (m : list B) :
  length l = length m -> Np.select l (map (fun _ => true) m) = l.
Proof.
  revert m. induction l as [|x l IH]; intros [|y m]; try discriminate;
    [reflexivity|].
  intros [= Hlen]. cbn [map Np.select]. rewrite IH by exact Hlen. reflexivity.
Qed.

Lemma rebuild_sentinels (tokens : list str) (m : gmap Z str) :
  rebuild (map (fun _ => code UNSPECIFIED) tokens) tokens m = tokens.
Proof.
  induction tokens as [|t tokens IH]; [reflexivity|].
  cbn [map rebuild]. rewrite Z.eqb_refl, IH. reflexivity.
Qed.

(** X8. With an empty table the codec still works: every token is
    written as the sentinel, whose two bytes are the same in either byte
    order, and as literal text; any store decodes the frame, and executes
    no statement for it. *)
Theorem no_dictionary_needed (U : Unicode) (native : byteorder)
    (text : str) (lang : Language) (c : connection) :
  UnicodeFacts U ->
  words c = [] ->
  code lang < 256 ->
  2 * Py.len (tokenize U text) < 2 ^ 32 ->
  tokenize U text <> [] ->
  exists literal c',
    Utf8.encode (Py.join (Py.lit "|") (tokenize U text)) = Ok literal
    /\ compress U native text lang c
       = (Ok (Py.byte_of_Z (code lang)
                :: Py.be_digits 4 (2 * Py.len (tokenize U text))
                ++ repeat xff (2 * length (tokenize U text)) ++ x00 :: literal), c')
    /\ forall c2 : connection,
         decompress native
           (Py.byte_of_Z (code lang)
              :: Py.be_digits 4 (2 * Py.len (tokenize U text))
              ++ repeat xff (2 * length (tokenize U text)) ++ x00 :: literal) c2
         = (Ok (Py.join (Py.lit " ") (tokenize U text)), c2).
Proof.
  intros HU Hempty Hlang Hsize Hne.
  destruct (compress_run U HU native text lang c Hne Hlang Hsize)
    as (tail & Ec & _ & Htail).
  { intros token id _ E. rewrite Hempty in E. discriminate. }
  set (tokens := tokenize U text) in *.
  assert (Hids : map (id_of (words c) (code lang)) tokens
                 = map (fun _ => code UNSPECIFIED) tokens).
  { rewrite Hempty. reflexivity. }
  rewrite Hids in Ec, Htail.
  assert (Hlits : Np.select tokens
                    (map (fun id => id =? code UNSPECIFIED)
                       (map (fun _ => code UNSPECIFIED) tokens)) = tokens).
  { rewrite map_map. cbn [code Z.eqb Pos.eqb].
    apply (select_all_true tokens tokens eq_refl). }
  rewrite Hlits in Htail.
  destruct Htail as [[Hnil _]|[_ (literal & E & Hlit & ->)]]; [contradiction|].
  rewrite tobytes_sentinels in Ec.
  exists literal. eexists. split; [exact E|]. split; [exact Ec|].
  intros c2.
  assert (Hlen : Py.len (repeat xff (2 * length tokens)) = 2 * Py.len tokens).
  { unfold Py.len. rewrite repeat_length. lia. }
  assert (Hpos : 0 < Py.len tokens).
  { unfold Py.len. destruct tokens; [congruence|]. simpl. lia. }
  destruct (decompress_run native (Py.byte_of_Z (code lang))
              (repeat xff (2 * length tokens)) (x00 :: literal)
              (map (fun _ => code UNSPECIFIED) tokens) lang c2)
    as (m & Ed & _).
  - lia.
  - rewrite <- (tobytes_sentinels native). apply frombuffer_tobytes.
    apply List.Forall_forall. intros id Hid.
    apply in_map_iff in Hid as (t & <- & _). unfold Np.u16. simpl. lia.
  - rewrite byte_to_of_Z by (pose proof (code_nonneg lang); lia).
    apply Language_of_code.
  - right. exists literal. reflexivity.
  - rewrite Hlen in Ed. rewrite Ed. f_equal.
    + do 2 f_equal. cbn [literals_after].
      destruct literal as [|b literal]; [congruence|].
      rewrite (Byte.byte_dec_lb (eq_refl x00)).
      rewrite (decode_ignore_encode _ _ E).
      change (Py.lit "|") with [0x7C].
      rewrite (split_join 0x7C tokens Hne).
      * apply rebuild_sentinels.
      * apply List.Forall_forall. intros t Ht.
        apply token_like_no_bar, (tokenize_tokens U HU text), Ht.
    + assert (Hnone : List.filter (fun id => negb (id =? code UNSPECIFIED))
                        (map (fun _ : str => code UNSPECIFIED) tokens) = []).
      { clear. induction tokens as [|t tokens IH]; [reflexivity|].
        cbn [map List.filter]. rewrite Z.eqb_refl. exact IH. }
      rewrite Hnone. cbn [Np.unique fold_right map]. rewrite app_nil_r.
      destruct c2; reflexivity.
Qed.

Lemma no_dictionary_needed_witness :
  exists c',
    compress Excerpt.unicode LittleEndian (Py.lit "Hi there") EN connect
    = (Ok ([x02; x00; x00; x00; x04; xff; xff; xff; xff; x00]
             ++ [x68; x69; x7c; x74; x68; x65; x72; x65]), c')
    /\ decompress LittleEndian
         ([x02; x00; x00; x00; x04; xff; xff; xff; xff; x00]
            ++ [x68; x69; x7c; x74; x68; x65; x72; x65]) Excerpt.dictionary
       = (Ok (Py.lit "hi there"), Excerpt.dictionary).
Proof.
  destruct (no_dictionary_needed Excerpt.unicode LittleEndian (Py.lit "Hi there")
              EN connect) as (literal & c' & E & Ec & Ed).
  - exact excerpt_facts.
  - reflexivity.
  - simpl. lia.
  - vm_compute. reflexivity.
  - discriminate.
  - vm_compute in E. injection E as <-.
    exists c'. split; [exact Ec|exact (Ed Excerpt.dictionary)].
Defined.

(** ** What the codec does to the store *)


Lemma Language_of_error (v : Z) (e : exn) :
  Language_of v = Raise e -> e = ValueError.
Proof.
  unfold Language_of. destruct (List.find _ members); [discriminate|].
  intros [= <-]. reflexivity.
Qed.

Lemma frombuffer_error (native : byteorder) (buf : bytes) (e : exn) :
  Np.frombuffer native buf = Raise e -> e = ValueError.
Proof.
  remember (length buf) as n eqn:En. revert buf En.
  induction n as [n IH] using lt_wf_ind. intros buf -> E.
  destruct buf as [|b0 [|b1 rest]]; cbn [Np.frombuffer] in E.
  - discriminate.
  - injection E as <-. reflexivity.
  - destruct (Np.frombuffer native rest) as [ids|e'] eqn:Er; cbn [rbind] in E;
      [discriminate|].
    injection E as <-. apply (IH (length rest)) with (buf := rest);
      [simpl; lia|reflexivity|exact Er].
Qed.



(** ** One language at a time *)

Lemma find_filter {A} (p q : A -> bool) (l : list A) :
  (forall x, p x = true -> q x = true) ->
  List.find p (List.filter q l) = List.find p l.
Proof.
  intros Hpq. induction l as [|x l IH]; [reflexivity|]. cbn [List.filter List.find].
  destruct (p x) eqn:Hp.
  - rewrite (Hpq x Hp). cbn [List.find]. rewrite Hp. reflexivity.
  - destruct (q x); cbn [List.find]; rewrite ?Hp; exact IH.
Qed.

Lemma select_id_of_language (t : list row) (word : str) (lang : Z) :
  Sqlite.select_id (of_language lang t) word lang = Sqlite.select_id t word lang.
Proof.
  unfold Sqlite.select_id, of_language. rewrite find_filter; [reflexivity|].
  intros r Hr. apply andb_true_iff in Hr as [_ Hl]. exact Hl.
Qed.

Lemma select_id_word_of_language (t : list row) (id lang : Z) :
  Sqlite.select_id_word (of_language lang t) id lang
  = Sqlite.select_id_word t id lang.
Proof.
  unfold Sqlite.select_id_word, of_language. rewrite find_filter; [reflexivity|].
  intros r Hr. apply andb_true_iff in Hr as [_ Hl]. exact Hl.
Qed.

Lemma Language_of_value (v : Z) (lang : Language) :
  Language_of v = Ok lang -> code lang = v.
Proof.
  unfold Language_of. destruct (List.find _ members) as [l|] eqn:E; [|discriminate].
  intros [= <-]. apply find_some in E as [_ E]. apply Z.eqb_eq, E.
Qed.

(** X10. The codec looks only at the rows of the language at hand: two
    stores that hold the same rows for it, in the same order, give the same
    frame for a text in that language and the same text for a frame whose
    language byte names it, whatever they hold for other languages. *)
Theorem other_languages_do_not_matter (U : Unicode) (native : byteorder)
    (text : str) (lang : Language) (data : bytes) (c1 c2 : connection) :
  (of_language (code lang) (words c1) = of_language (code lang) (words c2) ->
   fst (compress U native text lang c1) = fst (compress U native text lang c2))
  /\ (of_language (Py.byte_to_Z (nth 0 data x00)) (words c1)
      = of_language (Py.byte_to_Z (nth 0 data x00)) (words c2) ->
      fst (decompress native data c1) = fst (decompress native data c2)).
Proof.
  split.
  - intros Hsame. unfold compress.
    destruct (Py.len (tokenize U text) =? 0);
      [unfold bind, lift, ret; destruct (Py.to_bytes _ _); reflexivity|].
    destruct (lookup_words_run (Np.unique Np.str_compare (tokenize U text))
                (code lang) ∅ c1) as (m1 & E1 & H1).
    destruct (lookup_words_run (Np.unique Np.str_compare (tokenize U text))
                (code lang) ∅ c2) as (m2 & E2 & H2).
    assert (m1 = m2) as ->.
    { apply map_eq. intros token. rewrite H1, H2. unfold entry.
      rewrite <- (select_id_of_language (words c1)),
              <- (select_id_of_language (words c2)), Hsame. reflexivity. }
    unfold bind, lift, ret. rewrite E1, E2.
    repeat match goal with
           | |- context [match ?r with Ok _ => _ | Raise _ => _ end] =>
               destruct r
           | |- context [if ?b then _ else _] => destruct b
           end; reflexivity.
  - intros Hsame. unfold decompress. cbv zeta.
    destruct (Py.len data <? 5); [reflexivity|].
    destruct (Py.from_bytes (Py.slice 1 5 data) =? 0).
    { destruct (5 <? Py.len data); [|reflexivity].
      unfold bind, lift. destruct (Utf8.decode _); reflexivity. }
    unfold bind, lift, ret.
    destruct (Language_of _) as [l|e] eqn:El; [|reflexivity].
    apply Language_of_value in El. rewrite <- El in Hsame.
    destruct (Np.frombuffer native _) as [ids|e]; [|reflexivity].
    match goal with
    | |- context [lookup_ids ?uniq ?l ∅] =>
        destruct (lookup_ids_run uniq l ∅ c1) as (m1 & E1 & H1);
        destruct (lookup_ids_run uniq l ∅ c2) as (m2 & E2 & H2)
    end.
    assert (m1 = m2) as ->.
    { apply map_eq. intros id. rewrite H1, H2.
      rewrite <- (select_id_word_of_language (words c1)),
              <- (select_id_word_of_language (words c2)), Hsame. reflexivity. }
    rewrite E1, E2. reflexivity.
Qed.

Lemma other_languages_do_not_matter_witness :
  let richer :=
    Connection (Row 10 (Py.lit "hallo") (code DE) :: words Excerpt.dictionary
                  ++ [Row 11 (Py.lit "welt") (code DE)]) [] in
  fst (compress Excerpt.unicode LittleEndian (Py.lit "hello world") EN
         Excerpt.dictionary)
  = fst (compress Excerpt.unicode LittleEndian (Py.lit "hello world") EN richer).
Proof.
  intros richer.
  exact (proj1 (other_languages_do_not_matter Excerpt.unicode LittleEndian
                  (Py.lit "hello world") EN [] Excerpt.dictionary richer)
           eq_refl).
Defined.

(** ** Frames that are cut or padded *)

Lemma frombuffer_odd (native : byteorder) (buf : bytes) :
  Z.odd (Py.len buf) = true -> Np.frombuffer native buf = Raise ValueError.
Proof.
  unfold Py.len. remember (length buf) as n eqn:En. revert buf En.
  induction n as [n IH] using lt_wf_ind. intros buf -> Hodd.
  destruct buf as [|b0 [|b1 rest]].
  - discriminate.
  - reflexivity.
  - cbn [Np.frombuffer]. rewrite (IH (length rest)) with (buf := rest);
      [reflexivity|simpl; lia|reflexivity|].
    cbn [length] in Hodd. rewrite !Nat2Z.inj_succ in Hodd.
    rewrite <- Z.add_1_r, <- Z.add_1_r, <- Z.add_assoc in Hodd.
    change (1 + 1) with (2 * 1) in Hodd. rewrite Z.odd_add_mul_2 in Hodd.
    exact Hodd.
Qed.

(** X11. A frame whose id stream, as far as the data go, has an odd number
    of bytes is refused with [ValueError], whatever its language byte;
    no statement is executed. *)
Theorem odd_id_stream_is_refused (native : byteorder) (data : bytes)
    (c : connection) :
  5 <= Py.len data ->
  Py.from_bytes (Py.slice 1 5 data) <> 0 ->
  Z.odd (Py.len (Py.slice 5 (5 + Py.from_bytes (Py.slice 1 5 data)) data)) = true ->
  decompress native data c = (Raise ValueError, c).
Proof.
  intros Hlen Hsize Hodd. unfold decompress. cbv zeta.
  destruct (Z.ltb_spec (Py.len data) 5); [lia|].
  destruct (Z.eqb_spec (Py.from_bytes (Py.slice 1 5 data)) 0); [contradiction|].
  unfold bind at 1, lift at 1.
  destruct (Language_of _) as [lang|e] eqn:El.
  - unfold bind at 1, lift at 1. rewrite (frombuffer_odd native _ Hodd).
    reflexivity.
  - apply Language_of_error in El. subst e. reflexivity.
Qed.

Lemma odd_id_stream_is_refused_witness :
  decompress LittleEndian [x02; x00; x00; x00; x04; x0a; x00; x0b]
    Excerpt.dictionary = (Raise ValueError, Excerpt.dictionary).
Proof.
  apply (odd_id_stream_is_refused LittleEndian
           [x02; x00; x00; x00; x04; x0a; x00; x0b] Excerpt.dictionary).
  - vm_compute. discriminate.
  - vm_compute. discriminate.
  - reflexivity.
Defined.

Lemma index_from_none (i : Z) (b : byte) (l : bytes) :
  ~ In b l -> Py.index_from i b l = -1.
Proof.
  revert i. induction l as [|x l IH]; intros i Hb; [reflexivity|].
  cbn [Py.index_from]. destruct (Byte.eqb x b) eqn:E.
  - apply Byte.byte_dec_bl in E. subst x. exfalso. apply Hb. left. reflexivity.
  - apply IH. intros Hin. apply Hb. right. exact Hin.
Qed.

Lemma index_from_skip (i : Z) (b : byte) (junk rest : bytes) :
  ~ In b junk ->
  Py.index_from i b (junk ++ b :: rest) = i + Py.len junk.
Proof.
  revert i. induction junk as [|x junk IH]; intros i Hb.
  - cbn [app]. rewrite index_from_head. unfold Py.len. simpl. lia.
  - cbn [app Py.index_from]. destruct (Byte.eqb x b) eqn:E.
    + apply Byte.byte_dec_bl in E. subst x. exfalso. apply Hb. left. reflexivity.
    + rewrite IH by (intros Hin; apply Hb; right; exact Hin).
      unfold Py.len. cbn [length]. lia.
Qed.

(** What [decompress] does with a frame whose id stream is followed by
    bytes without a NUL and then by nothing or by a marker and literals. *)
Lemma decompress_after_junk (native : byteorder) (head : byte)
    (packed junk rest : bytes) (c : connection) :
  0 < Py.len packed < 2 ^ 32 ->
  ~ In x00 junk ->
  (rest = [] \/ exists literal, rest = x00 :: literal) ->
  decompress native
    (head :: Py.be_digits 4 (Py.len packed) ++ packed ++ junk ++ rest) c
  = (lang <- lift (Language_of (Py.byte_to_Z head)) ;;
     ids <- lift (Np.frombuffer native packed) ;;
     lookup <- lookup_ids
                 (Np.unique Z.compare
                    (List.filter (fun id => negb (id =? code UNSPECIFIED)) ids))
                 (code lang) ∅ ;;
     ret (Py.join (Py.lit " ") (rebuild ids (literals_after rest) lookup))) c.
Proof.
  intros Hlen Hjunk Hrest.
  set (size := Py.be_digits 4 (Py.len packed)).
  set (data := head :: size ++ packed ++ junk ++ rest).
  assert (Hsize : Py.len size = 4)
    by (unfold Py.len, size; rewrite length_be_digits; reflexivity).
  assert (Hdata : Py.len data
                  = 5 + Py.len packed + Py.len junk + Py.len rest).
  { unfold data, Py.len in *. cbn [length]. rewrite !length_app. lia. }
  assert (Hs1 : Py.slice 1 5 data = size).
  { change data with ([head] ++ size ++ packed ++ junk ++ rest).
    replace 5 with (Py.len [head] + Py.len size) by (rewrite Hsize; reflexivity).
    change 1 with (Py.len [head]). apply slice_app. }
  assert (Hs2 : Py.slice 5 (5 + Py.len packed) data = packed).
  { change data with ((head :: size) ++ packed ++ junk ++ rest).
    replace 5 with (Py.len (head :: size))
      by (unfold Py.len in *; cbn [length]; lia).
    apply slice_app. }
  assert (H5 : 5 + Py.len packed = Py.len (head :: size ++ packed))
    by (unfold Py.len in *; cbn [length]; rewrite length_app; lia).
  assert (Hfind : Py.find data x00 (5 + Py.len packed)
                  = Py.index_from (5 + Py.len packed) x00 (junk ++ rest)).
  { unfold Py.find, data. rewrite H5 at 2.
    change (head :: size ++ packed ++ junk ++ rest)
      with ((head :: size ++ packed) ++ junk ++ rest).
    rewrite slice_from_app. reflexivity. }
  assert (Hunspec :
    (let separator := Py.find data x00 (5 + Py.len packed) in
     if negb (separator =? -1) && (separator + 1 <? Py.len data)
        && negb (Py.len (Py.slice_from (separator + 1) data) =? 0)
     then Py.split 0x7C (Utf8.decode_ignore (Py.slice_from (separator + 1) data))
     else []) = literals_after rest).
  { rewrite Hfind. destruct Hrest as [->|[literal ->]].
    - rewrite app_nil_r, index_from_none by exact Hjunk. reflexivity.
    - rewrite index_from_skip by exact Hjunk. cbv zeta.
      assert (Hrest : Py.slice_from (5 + Py.len packed + Py.len junk + 1) data
                      = literal).
      { replace (5 + Py.len packed + Py.len junk + 1)
          with (Py.len (head :: size ++ packed ++ junk ++ [x00]))
          by (unfold Py.len in *; cbn [length]; rewrite !length_app;
              cbn [length]; lia).
        unfold data.
        replace (head :: size ++ packed ++ junk ++ x00 :: literal)
          with ((head :: size ++ packed ++ junk ++ [x00]) ++ literal)
          by (cbn [app]; rewrite <- !app_assoc; reflexivity).
        apply slice_from_app. }
      rewrite Hrest, Hdata. clear Hrest Hdata Hs1 Hs2 H5 Hfind.
      unfold Py.len in *. cbn [literals_after].
      rewrite (Byte.byte_dec_lb (eq_refl x00)).
      destruct literal as [|b literal]; cbn [length] in *;
        settle_tests; reflexivity. }
  assert (Hge : (Py.len data <? 5) = false).
  { apply Z.ltb_ge. unfold Py.len in *. lia. }
  assert (Hfrom : Py.from_bytes (Py.slice 1 5 data) = Py.len packed).
  { rewrite Hs1. unfold size. apply from_bytes_to_bytes4. lia. }
  unfold decompress. fold data. cbv zeta. rewrite Hge, !Hfrom.
  destruct (Z.eqb_spec (Py.len packed) 0) as [E0|_]; [lia|].
  cbv zeta in Hunspec. rewrite Hs2, Hunspec. reflexivity.
Qed.

(** X12. The decoder looks for the marker, it does not expect it in
    place: bytes that are not NUL between the id stream and the marker, or
    after the id stream of a frame without a marker, change nothing. *)
Theorem bytes_before_the_marker_are_skipped (native : byteorder) (head : byte)
    (idstream junk rest : bytes) (c : connection) :
  0 < Py.len idstream < 2 ^ 32 ->
  ~ In x00 junk ->
  (rest = [] \/ exists literal, rest = x00 :: literal) ->
  decompress native
    (head :: Py.be_digits 4 (Py.len idstream) ++ idstream ++ junk ++ rest) c
  = decompress native
      (head :: Py.be_digits 4 (Py.len idstream) ++ idstream ++ rest) c.
Proof.
  intros Hlen Hjunk Hrest.
  rewrite (decompress_after_junk native head idstream junk rest c Hlen Hjunk Hrest).
  pose proof (decompress_after_junk native head idstream [] rest c Hlen
                (fun H => H) Hrest) as Hclean.
  cbn [app] in Hclean. rewrite Hclean. reflexivity.
Qed.

Lemma bytes_before_the_marker_are_skipped_witness :
  decompress LittleEndian
    ([x02; x00; x00; x00; x04; xff; xff; x0b; x00] ++ [x2a; x2a]
       ++ [x00; x68; x69]) Excerpt.dictionary
  = decompress LittleEndian
      ([x02; x00; x00; x00; x04; xff; xff; x0b; x00] ++ [x00; x68; x69])
      Excerpt.dictionary.
Proof.
  apply (bytes_before_the_marker_are_skipped LittleEndian x02
           [xff; xff; x0b; x00] [x2a; x2a] [x00; x68; x69] Excerpt.dictionary).
  - vm_compute. split; reflexivity.
  - intros [H|[H|[]]]; discriminate.
  - right. exists [x68; x69]. reflexivity.
Defined.

(** ** The language registry *)

(** X13. [Language(value)] undoes [code]: every member is found again by
    its value, so no two members share one; the values accepted are 0 to
    16 and 65535, and every other value raises [ValueError]. *)
Theorem language_values :
  (forall lang, Language_of (code lang) = Ok lang)
  /\ (forall l1 l2, code l1 = code l2 -> l1 = l2)
  /\ (forall v lang, Language_of v = Ok lang -> code lang = v)
  /\ (forall v, (exists lang, Language_of v = Ok lang)
                <-> (0 <= v <= 16 \/ v = 65535))
  /\ (forall v, ~ (0 <= v <= 16 \/ v = 65535) -> Language_of v = Raise ValueError).
Proof.
  assert (Hinj : forall l1 l2, code l1 = code l2 -> l1 = l2).
  { intros l1 l2 E. pose proof (Language_of_code l1) as H1.
    rewrite E, Language_of_code in H1. congruence. }
  assert (Hacc : forall v, (exists lang, Language_of v = Ok lang)
                           <-> (0 <= v <= 16 \/ v = 65535)).
  { intros v. split.
    - intros [lang E]. apply Language_of_value in E. subst v.
      destruct lang; simpl; lia.
    - intros [Hv| ->].
      + destruct (Language_of_ok v Hv) as (lang & E & _). exists lang. exact E.
      + exists UNSPECIFIED. reflexivity. }
  repeat split; try apply Hacc.
  - apply Language_of_code.
  - exact Hinj.
  - apply Language_of_value.
  - intros v Hv. destruct (Language_of v) as [lang|e] eqn:E.
    + exfalso. apply Hv, Hacc. exists lang. exact E.
    + apply Language_of_error in E. subst e. reflexivity.
Qed.

(** ** Loading and looking up *)

Lemma find_app_first {A} (p : A -> bool) (l1 l2 : list A) :
  List.find p (l1 ++ l2)
  = match List.find p l1 with
    | Some x => Some x
    | None => List.find p l2
    end.
Proof.
  induction l1 as [|x l1 IH]; [reflexivity|]. cbn [app List.find].
  destruct (p x); [reflexivity|exact IH].
Qed.

Lemma find_filter_none {A} (p q : A -> bool) (l : list A) :
  (forall x, p x = true -> q x = false) ->
  List.find p (List.filter q l) = None.
Proof.
  intros Hpq. induction l as [|x l IH]; [reflexivity|]. cbn [List.filter].
  destruct (q x) eqn:Hq; [|exact IH]. cbn [List.find].
  destruct (p x) eqn:Hp; [|exact IH]. rewrite (Hpq x Hp) in Hq. discriminate.
Qed.

(** A query by id after an upsert: the new row if it has the key, the
    answer of before if not. *)
Lemma select_id_word_upsert (t : list row) (r : row) (id lang : Z) :
  Sqlite.select_id_word (Sqlite.upsert t r) id lang
  = if (row_id r =? id) && (row_lang r =? lang)
    then Some (row_id r, row_word r)
    else Sqlite.select_id_word t id lang.
Proof.
  unfold Sqlite.select_id_word, Sqlite.upsert. rewrite find_app_first.
  destruct ((row_id r =? id) && (row_lang r =? lang)) eqn:Hr.
  - rewrite find_filter_none.
    + cbn [List.find]. rewrite Hr. reflexivity.
    + intros x Hx. apply andb_true_iff in Hr as [H1 H2].
      apply andb_true_iff in Hx as [H3 H4].
      apply Z.eqb_eq in H1, H2, H3, H4. unfold Sqlite.same_key.
      rewrite H1, H2, H3, H4, !Z.eqb_refl. reflexivity.
  - rewrite find_filter.
    + destruct (List.find _ t); [reflexivity|]. cbn [List.find]. rewrite Hr.
      reflexivity.
    + intros x Hx. apply andb_true_iff in Hx as [H3 H4].
      apply Z.eqb_eq in H3, H4. unfold Sqlite.same_key.
      rewrite H3, H4, Hr. reflexivity.
Qed.

Lemma select_id_word_upserts_other (rows t : list row) (id lang : Z) :
  (forall r, In r rows -> (row_id r =? id) && (row_lang r =? lang) = false) ->
  Sqlite.select_id_word (fold_left Sqlite.upsert rows t) id lang
  = Sqlite.select_id_word t id lang.
Proof.
  revert t. induction rows as [|r rows IH]; intros t Hrows; [reflexivity|].
  cbn [fold_left]. rewrite IH by (intros x Hx; apply Hrows; right; exact Hx).
  rewrite select_id_word_upsert, (Hrows r (or_introl eq_refl)). reflexivity.
Qed.

Lemma accepted_all (rows : list row) :
  Forall (fun r => Sqlite.int64 (row_id r) = true) rows ->
  Sqlite.accepted rows = rows.
Proof.
  induction 1 as [|r rows Hr _ IH]; [reflexivity|].
  cbn [Sqlite.accepted]. rewrite Hr, IH. reflexivity.
Qed.

Lemma accepted_until (pre post : list row) (bad : row) :
  Forall (fun r => Sqlite.int64 (row_id r) = true) pre ->
  Sqlite.int64 (row_id bad) = false ->
  Sqlite.accepted (pre ++ bad :: post) = pre.
Proof.
  intros Hpre Hbad. induction Hpre as [|r pre Hr _ IH]; cbn [app Sqlite.accepted].
  - rewrite Hbad. reflexivity.
  - rewrite Hr, IH. reflexivity.
Qed.

Lemma accepted_in (rows : list row) (r : row) :
  In r (Sqlite.accepted rows) -> In r rows.
Proof.
  induction rows as [|x rows IH]; [intros []|]. cbn [Sqlite.accepted].
  destruct (Sqlite.int64 (row_id x)); [|intros []].
  intros [<-|Hin]; [left; reflexivity|right; exact (IH Hin)].
Qed.

Lemma of_language_upsert_other (t : list row) (r : row) (lang : Z) :
  row_lang r <> lang ->
  of_language lang (Sqlite.upsert t r) = of_language lang t.
Proof.
  intros Hl. unfold of_language, Sqlite.upsert.
  rewrite List.filter_app, filter_filter_and. cbn [List.filter].
  destruct (Z.eqb_spec (row_lang r) lang) as [E|_]; [contradiction|].
  rewrite app_nil_r. apply filter_ext. intros x.
  destruct (Z.eqb_spec (row_lang x) lang) as [E|_]; [|apply andb_false_r].
  rewrite andb_true_r. unfold Sqlite.same_key.
  destruct (Z.eqb_spec (row_lang r) (row_lang x)) as [E'|_]; [congruence|].
  rewrite andb_false_r. reflexivity.
Qed.

Lemma of_language_upsert_same (t : list row) (r : row) :
  of_language (row_lang r) (Sqlite.upsert t r)
  = Sqlite.upsert (of_language (row_lang r) t) r.
Proof.
  unfold of_language, Sqlite.upsert.
  rewrite List.filter_app, !filter_filter_and. cbn [List.filter].
  rewrite Z.eqb_refl. f_equal. apply filter_ext. intros x. apply andb_comm.
Qed.

Section LoadFacts.
Variable U : Unicode.

Lemma load_words (entries : list (Z * str)) (lang : Language) (c : connection) :
  words (snd (load U entries lang c))
  = fold_left Sqlite.upsert
      (Sqlite.accepted
         (map (fun e => Row (fst e) (lower U (snd e)) (code lang)) entries))
      (words c).
Proof. unfold load. apply executemany_words. Qed.

Lemma rows_fit (entries : list (Z * str)) (lang : Language) :
  Forall (fun e => Sqlite.int64 (fst e) = true) entries ->
  Forall (fun r => Sqlite.int64 (row_id r) = true)
    (map (fun e => Row (fst e) (lower U (snd e)) (code lang)) entries).
Proof.
  induction 1 as [|e entries He _ IH]; [constructor|].
  cbn [map]. constructor; [exact He|exact IH].
Qed.

Lemma load_ok (entries : list (Z * str)) (lang : Language) (c : connection) :
  Forall (fun e => Sqlite.int64 (fst e) = true) entries ->
  fst (load U entries lang c) = Ok tt.
Proof.
  intros Hfit. unfold load. rewrite executemany_result.
  replace (forallb _ _) with true; [reflexivity|]. symmetry.
  apply forallb_forall. intros r Hr.
  apply in_map_iff in Hr as (e & <- & He).
  rewrite List.Forall_forall in Hfit. exact (Hfit e He).
Qed.

End LoadFacts.

(** X14. After a load, a query by id answers with the word of the last
    entry that has the id, in lowercase: the last write wins. *)
Theorem load_then_lookup (U : Unicode) (pre post : list (Z * str))
    (id : Z) (word : str) (lang : Language) (c : connection) :
  Forall (fun e => Sqlite.int64 (fst e) = true) (pre ++ (id, word) :: post) ->
  (forall e, In e post -> fst e <> id) ->
  let c' := snd (load U (pre ++ (id, word) :: post) lang c) in
  fst (load U (pre ++ (id, word) :: post) lang c) = Ok tt
  /\ Sqlite.select_id_word (words c') id (code lang) = Some (id, lower U word).
Proof.
  intros Hfit Hlast c'. split; [apply load_ok, Hfit|].
  unfold c'. rewrite load_words, accepted_all by (apply rows_fit, Hfit).
  rewrite map_app. cbn [map]. rewrite fold_left_app. cbn [fold_left].
  rewrite select_id_word_upserts_other.
  - rewrite select_id_word_upsert. cbn [row_id row_lang row_word fst snd].
    rewrite !Z.eqb_refl. reflexivity.
  - intros r Hr. apply in_map_iff in Hr as (e & <- & He).
    cbn [row_id row_lang fst]. destruct (Z.eqb_spec (fst e) id) as [E|_];
      [exfalso; exact (Hlast e He E)|reflexivity].
Qed.

Lemma load_then_lookup_witness :
  let c' := snd (load Excerpt.unicode
                   ([(7, Py.lit "Old")] ++ (7, Py.lit "NEW") :: [(8, Py.lit "x")])
                   EN Excerpt.dictionary) in
  Sqlite.select_id_word (words c') 7 (code EN) = Some (7, Py.lit "new").
Proof.
  exact (proj2 (load_then_lookup Excerpt.unicode [(7, Py.lit "Old")]
                  [(8, Py.lit "x")] 7 (Py.lit "NEW") EN Excerpt.dictionary
                  ltac:(repeat constructor)
                  ltac:(intros e [<-|[]]; discriminate))).
Defined.

(** X15. A load touches only the keys it names: the rows of every other
    language stay as they are, in their order, and an id that no entry
    names keeps its answer, also when the load stops half way. *)
Theorem load_touches_only_its_keys (U : Unicode) (entries : list (Z * str))
    (lang : Language) (c : connection) :
  let c' := snd (load U entries lang c) in
  (forall l, l <> code lang -> of_language l (words c') = of_language l (words c))
  /\ (forall id l,
        (forall e, In e entries -> fst e <> id) ->
        Sqlite.select_id_word (words c') id l = Sqlite.select_id_word (words c) id l).
Proof.
  intros c'. unfold c'. rewrite load_words. split.
  - intros l Hl.
    assert (Hrows : forall r,
              In r (Sqlite.accepted
                      (map (fun e => Row (fst e) (lower U (snd e)) (code lang))
                         entries)) -> row_lang r <> l).
    { intros r Hr. apply accepted_in, in_map_iff in Hr as (e & <- & _).
      cbn [row_lang]. congruence. }
    revert Hrows. generalize (words c).
    induction (Sqlite.accepted _) as [|r rows IH]; intros t Hrows; [reflexivity|].
    cbn [fold_left]. rewrite IH by (intros x Hx; apply Hrows; right; exact Hx).
    apply of_language_upsert_other, Hrows. left. reflexivity.
  - intros id l Hid. apply select_id_word_upserts_other.
    intros r Hr. apply accepted_in, in_map_iff in Hr as (e & <- & He).
    cbn [row_id]. destruct (Z.eqb_spec (fst e) id) as [E|_];
      [exfalso; exact (Hid e He E)|reflexivity].
Qed.

Lemma load_touches_only_its_keys_witness :
  let c' := snd (load Excerpt.unicode [(10, Py.lit "Hallo")] DE Excerpt.dictionary) in
  of_language (code EN) (words c') = words Excerpt.dictionary
  /\ Sqlite.select_id_word (words c') 11 (code EN) = Some (11, Py.lit "world").
Proof.
  intros c'.
  destruct (load_touches_only_its_keys Excerpt.unicode [(10, Py.lit "Hallo")] DE
              Excerpt.dictionary) as [Hlang Hid].
  split.
  - exact (Hlang (code EN) ltac:(discriminate)).
  - exact (Hid 11 (code EN) ltac:(intros e [<-|[]]; discriminate)).
Defined.

(** X16. Whatever dictionaries the script loads into a new database, and
    wherever a load stops, no two rows of the table share id and language:
    the table has its primary key. *)
Theorem load_all_keeps_primary_key (U : Unicode)
    (files : list (Language * list (Z * str))) :
  Sqlite.primary_key (words (snd (load_all U files connect))).
Proof.
  pose proof connect_primary_key as Hpk. revert Hpk. generalize connect.
  induction files as [|[lang entries] files IH]; intros c Hpk; [exact Hpk|].
  cbn [load_all fst snd]. unfold bind.
  pose proof (executemany_primary_key
                (map (fun e => Row (fst e) (lower U (snd e)) (code lang)) entries)
                c Hpk) as Hnext.
  fold (load U entries lang c) in Hnext.
  destruct (load U entries lang c) as [[[]|e] c1]; cbn [snd] in Hnext |- *.
  - apply IH, Hnext.
  - exact Hnext.
Qed.

(** X17. An id that does not fit a signed 64-bit INTEGER stops the load
    with [OverflowError]: the connection sees the entries before it in the
    table as if they had been loaded alone, the entries after it never
    arrive. *)
Theorem load_stops_at_overflow (U : Unicode) (pre post : list (Z * str))
    (bad : Z * str) (lang : Language) (c : connection) :
  Forall (fun e => Sqlite.int64 (fst e) = true) pre ->
  Sqlite.int64 (fst bad) = false ->
  fst (load U (pre ++ bad :: post) lang c) = Raise OverflowError
  /\ fst (load U pre lang c) = Ok tt
  /\ words (snd (load U (pre ++ bad :: post) lang c))
     = words (snd (load U pre lang c)).
Proof.
  intros Hpre Hbad. split; [|split].
  - unfold load. rewrite executemany_result.
    replace (forallb _ _) with false; [reflexivity|]. symmetry.
    apply not_true_is_false. intros Hall. rewrite forallb_forall in Hall.
    specialize (Hall (Row (fst bad) (lower U (snd bad)) (code lang))).
    cbn [row_id] in Hall. rewrite Hbad in Hall. discriminate Hall.
    apply in_map_iff. exists bad. split; [reflexivity|].
    apply in_elt.
  - apply load_ok, Hpre.
  - rewrite !load_words, map_app. cbn [map].
    rewrite accepted_until; [|apply rows_fit, Hpre|exact Hbad].
    rewrite accepted_all by (apply rows_fit, Hpre). reflexivity.
Qed.

Lemma load_stops_at_overflow_witness :
  fst (load Excerpt.unicode ([(7, Py.lit "a")] ++ (2 ^ 63, Py.lit "b") :: [(8, Py.lit "c")])
         EN connect) = Raise OverflowError
  /\ words (snd (load Excerpt.unicode
                   ([(7, Py.lit "a")] ++ (2 ^ 63, Py.lit "b") :: [(8, Py.lit "c")])
                   EN connect))
     = [Row 7 (Py.lit "a") (code EN)].
Proof.
  destruct (load_stops_at_overflow Excerpt.unicode [(7, Py.lit "a")]
              [(8, Py.lit "c")] (2 ^ 63, Py.lit "b") EN connect)
    as (Hraise & _ & Hwords).
  - repeat constructor.
  - reflexivity.
  - split; [exact Hraise|]. rewrite Hwords. reflexivity.
Defined.

(** ** The lines of a dictionary file *)

Section LinesFacts.
Variable U : Unicode.
Variable int_of : str -> option Z.

Lemma load_lines_app (l1 l2 : list str) (lang : Language) (c : connection) :
  load_lines U int_of (l1 ++ l2) lang c
  = bind (load_lines U int_of l1 lang) (fun _ => load_lines U int_of l2 lang) c.
Proof.
  revert c. induction l1 as [|line l1 IH]; intros c; [reflexivity|].
  cbn [app load_lines]. unfold bind, lift in *.
  destruct (line_row U int_of lang line) as [[r|]|e]; [|apply IH|reflexivity].
  destruct (Sqlite.insert_or_replace r c) as [[[]|e] c1]; [apply IH|reflexivity].
Qed.

Lemma line_row_short (lang : Language) (line : str) :
  (length (Lines.fields line) < 2)%nat ->
  line_row U int_of lang line = Ok None.
Proof.
  unfold line_row. destruct (Lines.fields line) as [|f1 [|f2 fs]]; cbn [length];
    [reflexivity|reflexivity|lia].
Qed.

Lemma line_row_entry (lang : Language) (line : str) :
  line_row U int_of lang line <> Raise ValueError ->
  line_row U int_of lang line
  = Ok (option_map (fun e => Row (fst e) (lower U (snd e)) (code lang))
          (line_entry int_of line)).
Proof.
  unfold line_row, line_entry.
  destruct (Lines.fields line) as [|f1 [|f2 fs]]; [reflexivity|reflexivity|].
  destruct (int_of f1); [reflexivity|congruence].
Qed.

End LinesFacts.

(** X18. What [load] does with the lines of a file, when [int] accepts
    the first field of every line that has two: lines with fewer than two
    fields are passed over, fields after the second are not looked at, and
    the rest is one INSERT OR REPLACE of (int(first), lower(second), lang)
    for each remaining line, in the order of the file. *)
Theorem load_lines_inserts_the_entries (U : Unicode) (int_of : str -> option Z)
    (lines : list str) (lang : Language) (c : connection) :
  Forall (fun line => line_row U int_of lang line <> Raise ValueError) lines ->
  load_lines U int_of lines lang c
  = load U (omap (line_entry int_of) lines) lang c.
Proof.
  intros Hlines. revert c.
  induction Hlines as [|line lines Hline _ IH]; intros c; [reflexivity|].
  cbn [load_lines]. unfold bind at 1. unfold lift.
  rewrite (line_row_entry U int_of lang line Hline).
  change (omap (line_entry int_of) (line :: lines))
    with (match line_entry int_of line with
          | Some e => e :: omap (line_entry int_of) lines
          | None => omap (line_entry int_of) lines
          end).
  destruct (line_entry int_of line) as [e|]; cbn [option_map]; [|apply IH].
  unfold load. cbn [map Sqlite.executemany]. unfold bind.
  destruct (Sqlite.insert_or_replace _ c) as [[[]|x] c1]; [|reflexivity].
  apply IH.
Qed.

Lemma load_lines_inserts_the_entries_witness :
  load_lines Excerpt.unicode Sample.int_ascii
    [Py.lit "  12 Hello  extra"; Py.lit ""; Py.lit "13"; Py.lit "14 World"]
    EN connect
  = load Excerpt.unicode [(12, Py.lit "Hello"); (14, Py.lit "World")] EN connect.
Proof.
  exact (load_lines_inserts_the_entries Excerpt.unicode Sample.int_ascii
           [Py.lit "  12 Hello  extra"; Py.lit ""; Py.lit "13"; Py.lit "14 World"]
           EN connect
           ltac:(repeat constructor; vm_compute; discriminate)).
Defined.

(** X19. A line with fewer than two fields (an empty line, a line of
    blanks, a lone number) changes nothing, wherever it stands in the
    file. *)
Theorem short_lines_are_passed_over (U : Unicode) (int_of : str -> option Z)
    (before after : list str) (short : str) (lang : Language) (c : connection) :
  (length (Lines.fields short) < 2)%nat ->
  load_lines U int_of (before ++ short :: after) lang c
  = load_lines U int_of (before ++ after) lang c.
Proof.
  intros Hshort. rewrite !load_lines_app. unfold bind.
  destruct (load_lines U int_of before lang c) as [[[]|e] c1]; [|reflexivity].
  cbn [load_lines]. unfold bind, lift.
  rewrite (line_row_short U int_of lang short Hshort). reflexivity.
Qed.

Lemma short_lines_are_passed_over_witness :
  load_lines Excerpt.unicode Sample.int_ascii
    ([Py.lit "12 hello"] ++ Py.lit "  13  " :: [Py.lit "14 world"]) EN connect
  = load_lines Excerpt.unicode Sample.int_ascii
      ([Py.lit "12 hello"] ++ [Py.lit "14 world"]) EN connect.
Proof.
  exact (short_lines_are_passed_over Excerpt.unicode Sample.int_ascii
           [Py.lit "12 hello"] [Py.lit "14 world"] (Py.lit "  13  ") EN connect
           ltac:(vm_compute; lia)).
Defined.

(** X20. A line with two fields whose first [int] refuses stops the load
    with [ValueError]: the connection sees the lines before it inserted as
    if the file had ended there, the lines after it are never read. *)
Theorem bad_number_stops_the_load (U : Unicode) (int_of : str -> option Z)
    (before after : list str) (bad : str) (lang : Language) (c : connection) :
  fst (load_lines U int_of before lang c) = Ok tt ->
  line_row U int_of lang bad = Raise ValueError ->
  load_lines U int_of (before ++ bad :: after) lang c
  = (Raise ValueError, snd (load_lines U int_of before lang c)).
Proof.
  intros Hbefore Hbad. rewrite load_lines_app. unfold bind.
  destruct (load_lines U int_of before lang c) as [[[]|e] c1]; [|discriminate].
  cbn [load_lines snd]. unfold bind, lift. rewrite Hbad. reflexivity.
Qed.

Lemma bad_number_stops_the_load_witness :
  load_lines Excerpt.unicode Sample.int_ascii
    ([Py.lit "12 hello"] ++ Py.lit "x13 yes" :: [Py.lit "14 world"]) EN connect
  = (Raise ValueError,
     Connection [Row 12 (Py.lit "hello") (code EN)]
       [InsertOrReplace (Row 12 (Py.lit "hello") (code EN))]).
Proof.
  exact (bad_number_stops_the_load Excerpt.unicode Sample.int_ascii
           [Py.lit "12 hello"] [Py.lit "14 world"] (Py.lit "x13 yes") EN connect
           ltac:(reflexivity) ltac:(reflexivity)).
Defined.

(** X21. A dictionary can be loaded in pieces: loading the first part of
    a file and then the rest is loading the whole file. *)
Theorem load_in_pieces (U : Unicode) (int_of : str -> option Z)
    (first rest : list str) (lang : Language) (c : connection) :
  fst (load_lines U int_of first lang c) = Ok tt ->
  load_lines U int_of rest lang (snd (load_lines U int_of first lang c))
  = load_lines U int_of (first ++ rest) lang c.
Proof.
  intros Hfirst. rewrite load_lines_app. unfold bind.
  destruct (load_lines U int_of first lang c) as [[[]|e] c1]; [|discriminate].
  reflexivity.
Qed.

Lemma load_in_pieces_witness :
  load_lines Excerpt.unicode Sample.int_ascii [Py.lit "11 There"] EN
    (snd (load_lines Excerpt.unicode Sample.int_ascii [Py.lit "10 Hi"] EN
            Excerpt.dictionary))
  = load_lines Excerpt.unicode Sample.int_ascii
      ([Py.lit "10 Hi"] ++ [Py.lit "11 There"]) EN Excerpt.dictionary.
Proof.
  exact (load_in_pieces Excerpt.unicode Sample.int_ascii [Py.lit "10 Hi"]
           [Py.lit "11 There"] EN Excerpt.dictionary ltac:(reflexivity)).
Defined.

(** ** The loop of the script *)

Lemma of_language_upserts_other (rows t : list row) (lang : Z) :
  (forall r, In r rows -> row_lang r <> lang) ->
  of_language lang (fold_left Sqlite.upsert rows t) = of_language lang t.
Proof.
  revert t. induction rows as [|r rows IH]; intros t Hrows; [reflexivity|].
  cbn [fold_left]. rewrite IH by (intros x Hx; apply Hrows; right; exact Hx).
  apply of_language_upsert_other, Hrows. left. reflexivity.
Qed.

Lemma of_language_upserts_same (rows t : list row) (lang : Z) :
  (forall r, In r rows -> row_lang r = lang) ->
  of_language lang (fold_left Sqlite.upsert rows t)
  = fold_left Sqlite.upsert rows (of_language lang t).
Proof.
  revert t. induction rows as [|r rows IH]; intros t Hrows; [reflexivity|].
  cbn [fold_left]. rewrite IH by (intros x Hx; apply Hrows; right; exact Hx).
  rewrite <- (Hrows r (or_introl eq_refl)), of_language_upsert_same. reflexivity.
Qed.

Lemma load_rows_language (U : Unicode) (entries : list (Z * str)) (lang : Language)
    (r : row) :
  In r (map (fun e => Row (fst e) (lower U (snd e)) (code lang)) entries) ->
  row_lang r = code lang.
Proof. intros Hr. apply in_map_iff in Hr as (e & <- & _). reflexivity. Qed.

Lemma load_unsigned (U : Unicode) (entries : list (Z * str)) (lang : Language)
    (c : connection) :
  Forall (fun e => 0 <= fst e) entries ->
  Sqlite.unsigned_ids (words c) ->
  Sqlite.unsigned_ids (words (snd (load U entries lang c))).
Proof.
  intros Hentries Hc. unfold Sqlite.unsigned_ids in *.
  rewrite load_words. apply List.Forall_forall. intros r Hr.
  apply upserts_origin in Hr as [Hr|Hr].
  - rewrite List.Forall_forall in Hc. exact (Hc r Hr).
  - apply accepted_in, in_map_iff in Hr as (e & <- & He).
    rewrite List.Forall_forall in Hentries. exact (Hentries e He).
Qed.

(** X22. The order in which the script loads two languages does not show:
    when the ids fit, both orders end well and each language finds the
    same rows in the same order. *)
Theorem loads_of_two_languages_commute (U : Unicode)
    (ea eb : list (Z * str)) (la lb : Language) (c : connection) :
  la <> lb ->
  Forall (fun e => Sqlite.int64 (fst e) = true) ea ->
  Forall (fun e => Sqlite.int64 (fst e) = true) eb ->
  let ab := (_ <- load U ea la ;; load U eb lb) c in
  let ba := (_ <- load U eb lb ;; load U ea la) c in
  fst ab = Ok tt /\ fst ba = Ok tt
  /\ forall l, of_language l (words (snd ab)) = of_language l (words (snd ba)).
Proof.
  intros Hne Ha Hb ab ba.
  assert (Hcode : code la <> code lb).
  { intros E. apply Hne. destruct la, lb; try reflexivity; discriminate E. }
  assert (Eab : ab = load U eb lb (snd (load U ea la c))).
  { unfold ab, bind. pose proof (load_ok U ea la c Ha) as Hok.
    destruct (load U ea la c) as [[[]|e] c1]; [reflexivity|discriminate]. }
  assert (Eba : ba = load U ea la (snd (load U eb lb c))).
  { unfold ba, bind. pose proof (load_ok U eb lb c Hb) as Hok.
    destruct (load U eb lb c) as [[[]|e] c1]; [reflexivity|discriminate]. }
  rewrite Eab, Eba. split; [apply load_ok, Hb|]. split; [apply load_ok, Ha|].
  intros l. rewrite !load_words.
  rewrite !accepted_all by (apply rows_fit; assumption).
  set (ra := map (fun e => Row (fst e) (lower U (snd e)) (code la)) ea).
  set (rb := map (fun e => Row (fst e) (lower U (snd e)) (code lb)) eb).
  assert (Hra : forall r, In r ra -> row_lang r = code la)
    by (intros r; apply load_rows_language).
  assert (Hrb : forall r, In r rb -> row_lang r = code lb)
    by (intros r; apply load_rows_language).
  destruct (Z.eq_dec l (code la)) as [->|Hla].
  - rewrite of_language_upserts_other
      by (intros r Hr; rewrite (Hrb r Hr); congruence).
    rewrite !of_language_upserts_same by exact Hra.
    rewrite of_language_upserts_other
      by (intros r Hr; rewrite (Hrb r Hr); congruence).
    reflexivity.
  - destruct (Z.eq_dec l (code lb)) as [->|Hlb].
    + rewrite of_language_upserts_same by exact Hrb.
      rewrite (of_language_upserts_other ra)
        by (intros r Hr; rewrite (Hra r Hr); congruence).
      rewrite (of_language_upserts_other ra)
        by (intros r Hr; rewrite (Hra r Hr); congruence).
      rewrite of_language_upserts_same by exact Hrb. reflexivity.
    + rewrite !of_language_upserts_other
        by (intros r Hr; first [rewrite (Hra r Hr)|rewrite (Hrb r Hr)]; congruence).
      reflexivity.
Qed.

Lemma loads_of_two_languages_commute_witness :
  let ab := (_ <- load Excerpt.unicode [(10, Py.lit "Hallo")] DE ;;
             load Excerpt.unicode [(10, Py.lit "Hi")] EN) Excerpt.dictionary in
  let ba := (_ <- load Excerpt.unicode [(10, Py.lit "Hi")] EN ;;
             load Excerpt.unicode [(10, Py.lit "Hallo")] DE) Excerpt.dictionary in
  of_language (code EN) (words (snd ab)) = of_language (code EN) (words (snd ba))
  /\ words (snd ab) <> words (snd ba).
Proof.
  intros ab ba. split; [|discriminate].
  exact (proj2 (proj2 (loads_of_two_languages_commute Excerpt.unicode
                         [(10, Py.lit "Hallo")] [(10, Py.lit "Hi")] DE EN
                         Excerpt.dictionary ltac:(discriminate)
                         ltac:(repeat constructor) ltac:(repeat constructor)))
           (code EN)).
Defined.

Lemma load_all_run (U : Unicode) (files : list (Language * list (Z * str)))
    (c : connection) :
  Forall (fun file => Forall (fun e => 0 <= fst e < 2 ^ 63) (snd file)) files ->
  Sqlite.primary_key (words c) ->
  Sqlite.unsigned_ids (words c) ->
  fst (load_all U files c) = Ok tt
  /\ Sqlite.primary_key (words (snd (load_all U files c)))
  /\ Sqlite.unsigned_ids (words (snd (load_all U files c))).
Proof.
  intros Hfiles. revert c.
  induction Hfiles as [|[lang entries] files Hfile _ IH]; intros c Hpk Hun.
  - repeat split; assumption.
  - cbn [load_all fst snd] in *. unfold bind.
    assert (Hfit : Forall (fun e => Sqlite.int64 (fst e) = true) entries).
    { eapply List.Forall_impl; [|exact Hfile]. intros e He. cbv beta in He.
      unfold Sqlite.int64. apply andb_true_iff. split; [apply Z.leb_le|apply Z.ltb_lt]; lia. }
    assert (Hpos : Forall (fun e => 0 <= fst e) entries).
    { eapply List.Forall_impl; [|exact Hfile]. intros e He. cbv beta in He. lia. }
    pose proof (load_ok U entries lang c Hfit) as Hok.
    pose proof (load_primary_key U entries lang c Hpk) as Hpk1.
    pose proof (load_unsigned U entries lang c Hpos Hun) as Hun1.
    destruct (load U entries lang c) as [[[]|e] c1]; [|discriminate].
    apply IH; assumption.
Qed.

(** X23. The script end to end: whatever dictionaries with ids in
    0 .. 2^63 - 1 it loads into a new database, the loading ends well and
    every text of fewer than 2^31 tokens, in whatever language but
    UNSPECIFIED, is given back by [decompress] after [compress] as its
    lowercase tokens joined by spaces, whether the dictionaries hold its
    words or not. *)
Theorem script_roundtrip (U : Unicode) (native : byteorder)
    (files : list (Language * list (Z * str))) (text : str) (lang : Language) :
  UnicodeFacts U ->
  Forall (fun file => Forall (fun e => 0 <= fst e < 2 ^ 63) (snd file)) files ->
  code lang < 256 ->
  2 * Py.len (tokenize U text) < 2 ^ 32 ->
  fst (load_all U files connect) = Ok tt
  /\ exists frame c',
       compress U native text lang (snd (load_all U files connect)) = (Ok frame, c')
       /\ fst (decompress native frame c')
          = Ok (Py.join (Py.lit " ") (tokenize U text)).
Proof.
  intros HU Hfiles Hlang Hsize.
  destruct (load_all_run U files connect Hfiles connect_primary_key)
    as (Hok & Hpk & Hun); [constructor|].
  split; [exact Hok|].
  destruct (roundtrip U HU native text lang (snd (load_all U files connect))
              Hpk Hlang Hsize) as (frame & c' & Ecomp & _ & Edec).
  - intros token id _ Hsel. apply select_id_in in Hsel.
    unfold Sqlite.unsigned_ids in Hun. rewrite List.Forall_forall in Hun.
    exact (Hun _ Hsel).
  - exists frame, c'. split; assumption.
Qed.

Lemma script_roundtrip_witness :
  exists frame c',
    compress Excerpt.unicode LittleEndian (Py.lit "Hello, brave World") EN
      (snd (load_all Excerpt.unicode
              [(EN, [(10, Py.lit "hello"); (11, Py.lit "world")]);
               (DE, [(10, Py.lit "hallo")])] connect))
    = (Ok frame, c')
    /\ fst (decompress LittleEndian frame c') = Ok (Py.lit "hello brave world").
Proof.
  exact (proj2 (script_roundtrip Excerpt.unicode LittleEndian
                  [(EN, [(10, Py.lit "hello"); (11, Py.lit "world")]);
                   (DE, [(10, Py.lit "hallo")])]
                  (Py.lit "Hello, brave World") EN excerpt_facts
                  ltac:(repeat (apply List.Forall_cons || apply List.Forall_nil);
                        cbn [fst snd]; lia)
                  ltac:(reflexivity) ltac:(reflexivity))).
Defined.

(** ** From the dictionary file to the frame *)

Lemma upserts_append (rows t : list row) :
  List.NoDup (map Sqlite.key rows) ->
  (forall r x, In r rows -> In x t -> Sqlite.key x <> Sqlite.key r) ->
  fold_left Sqlite.upsert rows t = t ++ rows.
Proof.
  revert t. induction rows as [|r rows IH]; intros t Hnd Hnew.
  - rewrite app_nil_r. reflexivity.
  - cbn [map] in Hnd. apply List.NoDup_cons_iff in Hnd as [Hr Hnd].
    cbn [fold_left]. unfold Sqlite.upsert at 2. rewrite filter_all.
    + rewrite IH; [rewrite <- app_assoc; reflexivity|exact Hnd|].
      intros s x Hs Hx. apply in_app_iff in Hx as [Hx|[<-|[]]].
      * apply Hnew; [right; exact Hs|exact Hx].
      * intros E. apply Hr. rewrite E. apply in_map, Hs.
    + apply List.Forall_forall. intros x Hx. apply negb_true_iff.
      apply not_true_is_false. intros Hsame. unfold Sqlite.same_key in Hsame.
      apply andb_true_iff in Hsame as [H1 H2]. apply Z.eqb_eq in H1, H2.
      apply (Hnew r x (or_introl eq_refl) Hx). unfold Sqlite.key. congruence.
Qed.

Lemma rows_keys_NoDup (U : Unicode) (entries : list (Z * str)) (lang : Language) :
  List.NoDup (map fst entries) ->
  List.NoDup
    (map Sqlite.key
       (map (fun e => Row (fst e) (lower U (snd e)) (code lang)) entries)).
Proof.
  induction entries as [|e entries IH]; intros Hnd; [constructor|].
  cbn [map] in Hnd |- *. apply List.NoDup_cons_iff in Hnd as [He Hnd].
  constructor; [|exact (IH Hnd)].
  intros Hin. apply He. rewrite map_map in Hin.
  apply in_map_iff in Hin as (x & Hx & Hin). unfold Sqlite.key in Hx.
  cbn [row_id row_lang] in Hx. injection Hx as Hx. rewrite <- Hx.
  apply in_map, Hin.
Qed.

Lemma select_id_rows (U : Unicode) (entries : list (Z * str)) (lang : Language)
    (id : Z) (word : str) :
  List.NoDup (map (fun e => lower U (snd e)) entries) ->
  In (id, word) entries ->
  Sqlite.select_id
    (map (fun e => Row (fst e) (lower U (snd e)) (code lang)) entries)
    (lower U word) (code lang)
  = Some id.
Proof.
  unfold Sqlite.select_id.
  induction entries as [|e entries IH]; intros Hnd Hin; [destruct Hin|].
  cbn [map] in Hnd |- *. apply List.NoDup_cons_iff in Hnd as [He Hnd].
  cbn [List.find row_word row_lang]. rewrite Z.eqb_refl, andb_true_r.
  case_bool_decide as Hw.
  - destruct Hin as [->|Hin]; [reflexivity|].
    exfalso. apply He. rewrite Hw.
    exact (in_map (fun e => lower U (snd e)) entries (id, word) Hin).
  - destruct Hin as [->|Hin]; [contradiction Hw; reflexivity|].
    exact (IH Hnd Hin).
Qed.

Lemma select_none {A} (a : list A) (mask : list bool) :
  Forall (fun b => b = false) mask -> Np.select a mask = [].
Proof.
  intros Hmask. revert a.
  induction Hmask as [|b mask Hb _ IH]; intros [|x a]; try reflexivity.
  cbn [Np.select]. rewrite Hb. apply IH.
Qed.

(** X24. A dictionary with distinct ids and distinct lowercase words,
    loaded into a store that has no row for its language, is found again
    word by word: the query of [compress] for the lowercase of a word
    answers with the id of its line. *)
Theorem loaded_word_is_found (U : Unicode) (entries : list (Z * str))
    (lang : Language) (c : connection) (id : Z) (word : str) :
  Forall (fun e => Sqlite.int64 (fst e) = true) entries ->
  List.NoDup (map fst entries) ->
  List.NoDup (map (fun e => lower U (snd e)) entries) ->
  of_language (code lang) (words c) = [] ->
  In (id, word) entries ->
  Sqlite.select_id (words (snd (load U entries lang c))) (lower U word) (code lang)
  = Some id.
Proof.
  intros Hfit Hids Hwords Hempty Hin.
  rewrite <- select_id_of_language, load_words.
  rewrite accepted_all by (apply rows_fit, Hfit).
  rewrite of_language_upserts_same by (intros r; apply load_rows_language).
  rewrite Hempty, upserts_append.
  - cbn [app]. apply select_id_rows; assumption.
  - apply rows_keys_NoDup, Hids.
  - intros r x _ [].
Qed.

Lemma loaded_word_is_found_witness :
  Sqlite.select_id
    (words (snd (load Excerpt.unicode [(7, Py.lit "Guten"); (8, Py.lit "TAG")] DE
                   Excerpt.dictionary)))
    (Py.lit "tag") (code DE)
  = Some 8.
Proof.
  apply (loaded_word_is_found Excerpt.unicode [(7, Py.lit "Guten"); (8, Py.lit "TAG")]
           DE Excerpt.dictionary 8 (Py.lit "TAG")).
  - repeat constructor.
  - repeat constructor; cbn; intuition discriminate.
  - repeat constructor; cbn; intuition discriminate.
  - reflexivity.
  - right. left. reflexivity.
Defined.

(** X25. A text whose every token is in the dictionary with an id below
    65535 costs five bytes and two bytes for each token, and nothing else:
    the frame is the language byte, the byte count and the ids that the
    store gave, with no marker and no literal section. *)
Theorem covered_text_frame (U : Unicode) (native : byteorder)
    (text : str) (lang : Language) (c : connection) :
  UnicodeFacts U ->
  code lang < 256 ->
  2 * Py.len (tokenize U text) < 2 ^ 32 ->
  tokenize U text <> [] ->
  (forall token, In token (tokenize U text) ->
     exists id, Sqlite.select_id (words c) token (code lang) = Some id
                /\ 0 <= id < 65535) ->
  (forall token, In token (tokenize U text) ->
     Sqlite.select_id (words c) token (code lang)
     = Some (id_of (words c) (code lang) token))
  /\ fst (compress U native text lang c)
     = Ok (Py.byte_of_Z (code lang)
             :: Py.be_digits 4 (2 * Py.len (tokenize U text))
             ++ Np.tobytes native
                  (map (id_of (words c) (code lang)) (tokenize U text))).
Proof.
  intros HU Hlang Hsize Hne Hcov.
  assert (Hid : forall token, In token (tokenize U text) ->
            Sqlite.select_id (words c) token (code lang)
            = Some (id_of (words c) (code lang) token)
            /\ id_of (words c) (code lang) token <> code UNSPECIFIED).
  { intros token Hin. destruct (Hcov token Hin) as (id & E & Hr).
    unfold id_of, entry. rewrite E.
    destruct (Z.ltb_spec id 65536) as [_|Hge]; [|lia]. cbn.
    split; [reflexivity|lia]. }
  split; [intros token Hin; apply (Hid token Hin)|].
  destruct (compress_run U HU native text lang c Hne Hlang Hsize)
    as (tail & Ecomp & _ & Htail).
  { intros token id Hin E. destruct (Hcov token Hin) as (id' & E' & Hr).
    rewrite E in E'. injection E' as ->. lia. }
  rewrite Ecomp. cbn [fst].
  destruct Htail as [[_ ->]|[Hlits _]]; [rewrite app_nil_r; reflexivity|].
  exfalso. apply Hlits, select_none. apply List.Forall_forall.
  intros b Hb. rewrite map_map in Hb. apply in_map_iff in Hb as (token & <- & Hin).
  apply Z.eqb_neq, (Hid token Hin).
Qed.

Lemma covered_text_frame_witness :
  fst (compress Excerpt.unicode BigEndian (Py.lit "Guten Tag, guten Tag!") DE
         (snd (load Excerpt.unicode [(7, Py.lit "Guten"); (8, Py.lit "TAG")] DE
                 Excerpt.dictionary)))
  = Ok [x01; x00; x00; x00; x08; x00; x07; x00; x08; x00; x07; x00; x08].
Proof.
  refine (eq_trans
            (proj2 (covered_text_frame Excerpt.unicode BigEndian
                      (Py.lit "Guten Tag, guten Tag!") DE
                      (snd (load Excerpt.unicode
                              [(7, Py.lit "Guten"); (8, Py.lit "TAG")] DE
                              Excerpt.dictionary))
                      excerpt_facts _ _ _ _))
            _).
  - cbn. lia.
  - vm_compute. reflexivity.
  - vm_compute. discriminate.
  - intros token Hin. vm_compute in Hin.
    destruct Hin as [<-|[<-|[<-|[<-|[]]]]];
      [exists 7|exists 8|exists 7|exists 8]; (split; [vm_compute; reflexivity|lia]).
  - vm_compute. reflexivity.
Defined.

(** X26. Frames tell token sequences apart: with one store, two texts
    that [compress] turns into the same frame have the same tokens. *)
Theorem same_frame_same_tokens (U : Unicode) (native : byteorder)
    (text1 text2 : str) (lang : Language) (c c1 c2 : connection) (frame : bytes) :
  UnicodeFacts U ->
  Sqlite.primary_key (words c) ->
  Sqlite.unsigned_ids (words c) ->
  code lang < 256 ->
  2 * Py.len (tokenize U text1) < 2 ^ 32 ->
  2 * Py.len (tokenize U text2) < 2 ^ 32 ->
  compress U native text1 lang c = (Ok frame, c1) ->
  compress U native text2 lang c = (Ok frame, c2) ->
  tokenize U text1 = tokenize U text2.
Proof.
  intros HU Hpk Hun Hlang Hsize1 Hsize2 E1 E2.
  assert (Hback : forall text,
            2 * Py.len (tokenize U text) < 2 ^ 32 ->
            exists frame' c',
              compress U native text lang c = (Ok frame', c')
              /\ fst (decompress native frame' c)
                 = Ok (Py.join (Py.lit " ") (tokenize U text))).
  { intros text Hsize. apply (roundtrip_across U HU native text lang c c Hlang Hsize).
    - intros token id _. apply unsigned_select, Hun.
    - intros token id _ Hentry _. apply entry_some in Hentry as [Hsel _].
      apply select_id_word_in; [exact Hpk|]. apply select_id_in, Hsel. }
  destruct (Hback text1 Hsize1) as (f1 & d1 & F1 & D1).
  destruct (Hback text2 Hsize2) as (f2 & d2 & F2 & D2).
  rewrite E1 in F1. rewrite E2 in F2.
  injection F1 as <- _. injection F2 as <- _.
  rewrite D1 in D2. injection D2 as Hjoin.
  assert (Hparts : forall text,
            Forall (fun p => ~ In 0x20 p) (tokenize U text)
            /\ Forall (fun p => p <> []) (tokenize U text)).
  { intros text. split; apply List.Forall_forall; intros token Hin.
    - exact (tokens_no_space U HU text token Hin).
    - exact (proj1 (tokenize_tokens U HU text token Hin)). }
  destruct (tokenize U text1) as [|a1 l1] eqn:T1;
    destruct (tokenize U text2) as [|a2 l2] eqn:T2.
  - reflexivity.
  - exfalso. apply (join_nonempty (Py.lit " ") (a2 :: l2)); [discriminate| |].
    + rewrite <- T2. apply Hparts.
    + symmetry. exact Hjoin.
  - exfalso. apply (join_nonempty (Py.lit " ") (a1 :: l1)); [discriminate| |].
    + rewrite <- T1. apply Hparts.
    + exact Hjoin.
  - rewrite <- (split_join 0x20 (a1 :: l1)), <- (split_join 0x20 (a2 :: l2)).
    + change [32] with (Py.lit " "). rewrite Hjoin. reflexivity.
    + discriminate.
    + rewrite <- T2. apply Hparts.
    + discriminate.
    + rewrite <- T1. apply Hparts.
Qed.

Lemma same_frame_same_tokens_witness :
  tokenize Excerpt.unicode (Py.lit "Hello,  WORLD!")
  = tokenize Excerpt.unicode (Py.lit "hello world").
Proof.
  apply (same_frame_same_tokens Excerpt.unicode LittleEndian
           (Py.lit "Hello,  WORLD!") (Py.lit "hello world") EN Excerpt.dictionary
           (snd (compress Excerpt.unicode LittleEndian (Py.lit "Hello,  WORLD!") EN
                   Excerpt.dictionary))
           (snd (compress Excerpt.unicode LittleEndian (Py.lit "hello world") EN
                   Excerpt.dictionary))
           [x02; x00; x00; x00; x04; x0a; x00; x0b; x00]).
  - exact excerpt_facts.
  - exact dictionary_primary_key.
  - repeat constructor; simpl; lia.
  - simpl. lia.
  - vm_compute. reflexivity.
  - vm_compute. reflexivity.
  - vm_compute. reflexivity.
  - vm_compute. reflexivity.
Defined.
